(** * LaTeXParser (src/utils/latex-parser.js): a shallow embedding

    The module is a JavaScript object of string functions built from
    regular-expression replacements and presence tests.  Strings are
    modelled as JavaScript has them, sequences of UTF-16 code units;
    regular expressions are kept as syntax trees and run by a
    backtracking matcher with the priorities of the ECMAScript
    semantics, so that every pattern of the source can be written down
    next to its literal. *)

From Stdlib Require Import List NArith ZArith Bool Arith Lia.
From Stdlib Require Import Strings.String Strings.Ascii.
Import ListNotations.

Set Implicit Arguments.

(** ** Strings *)

Module JsString.

(** A code unit, and a string of them. *)
Definition char := N.
Definition jsstring := list char.

(** Literals are written as Rocq strings, whose bytes are UTF-8; [js]
    decodes them to code units (sequences of one to three bytes, which
    covers every glyph of the symbol table). *)
Fixpoint utf16_of_utf8 (bs : list N) : jsstring :=
  match bs with
  | [] => []
  | b0 :: r0 =>
      if (b0 <? 128)%N then b0 :: utf16_of_utf8 r0
      else if (b0 <? 224)%N then
        match r0 with
        | b1 :: r1 => ((b0 mod 32) * 64 + b1 mod 64)%N :: utf16_of_utf8 r1
        | [] => [b0]
        end
      else
        match r0 with
        | b1 :: r1 =>
            match r1 with
            | b2 :: r2 =>
                ((b0 mod 16) * 4096 + (b1 mod 64) * 64 + b2 mod 64)%N
                  :: utf16_of_utf8 r2
            | [] => [b0; b1]
            end
        | [] => [b0]
        end
  end.

Definition js (s : string) : jsstring :=
  utf16_of_utf8 (map N_of_ascii (list_ascii_of_string s)).

Definition char_of (s : string) : char := hd 0%N (js s).

Definition eqc (a b : char) : bool := (a =? b)%N.

Fixpoint str_eqb (a b : jsstring) : bool :=
  match a, b with
  | [], [] => true
  | x :: a', y :: b' => eqc x y && str_eqb a' b'
  | _, _ => false
  end.

(** WhiteSpace and LineTerminator of ECMAScript: what [trim] strips and
    what the class [\s] matches. *)
Definition is_space (c : char) : bool :=
  ((9 <=? c) && (c <=? 13) || (c =? 32) || (c =? 160) || (c =? 5760)
   || (8192 <=? c) && (c <=? 8202) || (c =? 8232) || (c =? 8233)
   || (c =? 8239) || (c =? 8287) || (c =? 12288) || (c =? 65279))%N.

Definition is_digit (c : char) : bool := ((48 <=? c) && (c <=? 57))%N.
Definition is_upper (c : char) : bool := ((65 <=? c) && (c <=? 90))%N.
Definition is_lower (c : char) : bool := ((97 <=? c) && (c <=? 122))%N.
Definition is_letter (c : char) : bool := is_lower c || is_upper c.

(** [\w] *)
Definition is_word (c : char) : bool :=
  is_letter c || is_digit c || (c =? 95)%N.

(** [.]: anything but a line terminator. *)
Definition is_dot (c : char) : bool :=
  negb ((c =? 10) || (c =? 13) || (c =? 8232) || (c =? 8233))%N.

Definition oneof (s : string) (c : char) : bool := existsb (eqc c) (js s).
Definition noneof (s : string) (c : char) : bool := negb (oneof s c).

(** String.prototype.trim *)
Fixpoint trimStart (s : jsstring) : jsstring :=
  match s with
  | c :: r => if is_space c then trimStart r else s
  | [] => []
  end.

Fixpoint trimEnd (s : jsstring) : jsstring :=
  match s with
  | c :: r =>
      match trimEnd r with
      | [] => if is_space c then [] else [c]
      | r' => c :: r'
      end
  | [] => []
  end.

Definition trim (s : jsstring) : jsstring := trimEnd (trimStart s).

(** String.prototype.includes *)
Fixpoint starts_with (p s : jsstring) : bool :=
  match p, s with
  | [], _ => true
  | x :: p', y :: s' => eqc x y && starts_with p' s'
  | _ :: _, [] => false
  end.

Fixpoint includes (s sub : jsstring) : bool :=
  starts_with sub s
  || match s with
     | _ :: r => includes r sub
     | [] => false
     end.

(** Iteration of a string ([for ... of]) goes by code point: a high
    surrogate followed by a low one is a single element. *)
Definition is_high (c : char) : bool := ((55296 <=? c) && (c <=? 56319))%N.
Definition is_low (c : char) : bool := ((56320 <=? c) && (c <=? 57343))%N.

Fixpoint code_points (s : jsstring) : list N :=
  match s with
  | [] => []
  | h :: r =>
      match r with
      | l :: r' =>
          if is_high h && is_low l
          then ((h - 55296) * 1024 + (l - 56320) + 65536)%N :: code_points r'
          else h :: code_points r
      | [] => [h]
      end
  end.

End JsString.
Import JsString.

(** ** Regular expressions *)

Module RegExp.

(** The fragment of pattern syntax the module uses.  Quantifiers [*],
    [+] and [*?] are only ever applied to a single character class in
    the source, and the two lookarounds to one class. *)
Inductive regex : Type :=
| Eps                                   (* empty alternative *)
| Chr (c : char)                        (* a literal character *)
| Cls (p : char -> bool)                (* [...], \s, \w, \d, . *)
| Cat (r1 r2 : regex)
| Alt (r1 r2 : regex)                   (* r1|r2 *)
| Opt (r : regex)                       (* r? *)
| Star (p : char -> bool)               (* [...]* *)
| Plus (p : char -> bool)               (* [...]+ *)
| LazyStar (p : char -> bool)           (* [...]*? *)
| Grp (n : nat) (r : regex)             (* the n-th capturing (...) *)
| WordB                                 (* \b *)
| NotBehind (p : char -> bool)          (* (?<![...]) *)
| NotAhead (p : char -> bool).          (* (?![...]) *)

Definition seq (l : list regex) : regex := fold_right Cat Eps l.
Definition lit (s : string) : regex := seq (map Chr (js s)).

(** Number of capturing groups (the m of GetSubstitution). *)
Fixpoint ngroups (r : regex) : nat :=
  match r with
  | Cat a b | Alt a b => ngroups a + ngroups b
  | Opt a => ngroups a
  | Grp _ a => S (ngroups a)
  | _ => 0
  end.

(** Matcher state: the text before the position (nearest character
    first) and after it, the number of characters consumed since the
    start of the attempt, and the captures made so far. *)
Record mstate : Type := MState {
  before : jsstring;
  after : jsstring;
  mlen : nat;
  caps : list (nat * jsstring)
}.

Definition advance (c : char) (rest : jsstring) (st : mstate) : mstate :=
  MState (c :: before st) rest (S (mlen st)) (caps st).

Definition at_pos (b a : jsstring) (n : nat) (st : mstate) : mstate :=
  MState b a n (caps st).

(** Canonicalize of the ignoreCase flag (no unicode flag).  The patterns
    matched with [i] in this module are ASCII, and for an ASCII pattern
    character canonical forms agree exactly on the two ASCII cases: a
    code unit of 128 or more never canonicalizes below 128. *)
Definition canon (ic : bool) (c : char) : char :=
  if ic && is_lower c then (c - 32)%N else c.

Definition prev_is (p : char -> bool) (st : mstate) : bool :=
  match before st with c :: _ => p c | [] => false end.
Definition next_is (p : char -> bool) (st : mstate) : bool :=
  match after st with c :: _ => p c | [] => false end.

Section Matcher.
Variable R : Type.

(** [p*], greedy: take as many as possible, give back one at a time. *)
Fixpoint star_greedy (p : char -> bool) (b a : jsstring) (n : nat)
         (k : jsstring -> jsstring -> nat -> option R) : option R :=
  match a with
  | c :: rest =>
      if p c then
        match star_greedy p (c :: b) rest (S n) k with
        | Some x => Some x
        | None => k b a n
        end
      else k b a n
  | [] => k b a n
  end.

(** [p*?], lazy: try the continuation first, then take one more. *)
Fixpoint star_lazy (p : char -> bool) (b a : jsstring) (n : nat)
         (k : jsstring -> jsstring -> nat -> option R) : option R :=
  match k b a n with
  | Some x => Some x
  | None =>
      match a with
      | c :: rest => if p c then star_lazy p (c :: b) rest (S n) k else None
      | [] => None
      end
  end.

(** The backtracking matcher, in continuation-passing style: [k] is
    the rest of the pattern, and [None] is failure. *)
Fixpoint m (ic : bool) (r : regex) (st : mstate)
         (k : mstate -> option R) : option R :=
  match r with
  | Eps => k st
  | Chr c =>
      match after st with
      | x :: rest =>
          if eqc (canon ic x) (canon ic c) then k (advance x rest st) else None
      | [] => None
      end
  | Cls p =>
      match after st with
      | x :: rest => if p x then k (advance x rest st) else None
      | [] => None
      end
  | Cat r1 r2 => m ic r1 st (fun st' => m ic r2 st' k)
  | Alt r1 r2 =>
      match m ic r1 st k with
      | Some x => Some x
      | None => m ic r2 st k
      end
  | Opt r1 =>
      (* an iteration that consumes nothing is rejected *)
      match m ic r1 st (fun st' =>
               if mlen st' =? mlen st then None else k st') with
      | Some x => Some x
      | None => k st
      end
  | Star p =>
      star_greedy p (before st) (after st) (mlen st)
                  (fun b a n => k (at_pos b a n st))
  | Plus p =>
      match after st with
      | x :: rest =>
          if p x then
            star_greedy p (x :: before st) rest (S (mlen st))
                        (fun b a n => k (at_pos b a n st))
          else None
      | [] => None
      end
  | LazyStar p =>
      star_lazy p (before st) (after st) (mlen st)
                (fun b a n => k (at_pos b a n st))
  | Grp n r1 =>
      m ic r1 st (fun st' =>
        k (MState (before st') (after st') (mlen st')
                  ((n, firstn (mlen st' - mlen st) (after st)) :: caps st')))
  | WordB =>
      if xorb (prev_is is_word st) (next_is is_word st) then k st else None
  | NotBehind p => if prev_is p st then None else k st
  | NotAhead p => if next_is p st then None else k st
  end.
End Matcher.

(** One attempt at a position: the state at the end of the match. *)
Definition exec_at (ic : bool) (r : regex) (b a : jsstring) : option mstate :=
  m ic r (MState b a 0 []) (fun st => Some st).

(** RegExp.prototype.test on a fresh pattern (lastIndex 0): is there a
    match starting anywhere. *)
Fixpoint test_from (ic : bool) (r : regex) (b a : jsstring) : bool :=
  match exec_at ic r b a with
  | Some _ => true
  | None =>
      match a with
      | c :: rest => test_from ic r (c :: b) rest
      | [] => false
      end
  end.

Definition test (ic : bool) (r : regex) (s : jsstring) : bool :=
  test_from ic r [] s.

Definition capture (n : nat) (cs : list (nat * jsstring)) : jsstring :=
  match find (fun e => fst e =? n) cs with
  | Some e => snd e
  | None => []                     (* undefined is replaced by nothing *)
  end.

Definition digit_val (c : char) : nat := N.to_nat (c - 48).

(** GetSubstitution: dollar-dollar (36 36), dollar-ampersand (38),
    dollar-backquote (96), dollar-quote (39), and one- or two-digit group
    references in a replacement template; [ng] is the number of groups
    of the pattern. *)
Fixpoint GetSubstitution (matched pre post : jsstring)
         (cs : list (nat * jsstring)) (ng : nat) (t : jsstring) : jsstring :=
  match t with
  | [] => []
  | c :: t1 =>
      if negb (eqc c 36%N) then c :: GetSubstitution matched pre post cs ng t1
      else
        match t1 with
        | [] => [c]
        | d :: t2 =>
            if eqc d 36%N then 36%N :: GetSubstitution matched pre post cs ng t2
            else if eqc d 38%N then matched ++ GetSubstitution matched pre post cs ng t2
            else if eqc d 96%N then pre ++ GetSubstitution matched pre post cs ng t2
            else if eqc d 39%N then post ++ GetSubstitution matched pre post cs ng t2
            else if is_digit d then
              let one := digit_val d in
              match t2 with
              | e :: t3 =>
                  let two := 10 * one + digit_val e in
                  if is_digit e && (1 <=? two) && (two <=? ng)
                  then capture two cs ++ GetSubstitution matched pre post cs ng t3
                  else if (1 <=? one) && (one <=? ng)
                  then capture one cs ++ GetSubstitution matched pre post cs ng t2
                  else c :: d :: GetSubstitution matched pre post cs ng t2
              | [] =>
                  if (1 <=? one) && (one <=? ng)
                  then capture one cs
                  else [c; d]
              end
            else c :: GetSubstitution matched pre post cs ng t1
        end
  end.

(** String.prototype.replace with a global pattern.  The text is walked
    once; [skip] counts the characters still covered by the match just
    replaced.  An empty match is followed by the character it stands
    before, as lastIndex is advanced by one. *)
Fixpoint replace_go (ic : bool) (r : regex) (repl : jsstring)
         (b a : jsstring) (skip : nat) {struct a} : jsstring :=
  match skip with
  | S n =>
      match a with
      | c :: rest => replace_go ic r repl (c :: b) rest n
      | [] => []
      end
  | O =>
      match exec_at ic r b a with
      | Some st =>
          GetSubstitution (firstn (mlen st) a) (rev b) (after st)
                          (caps st) (ngroups r) repl
          ++ match a with
             | c :: rest =>
                 match mlen st with
                 | O => c :: replace_go ic r repl (c :: b) rest 0
                 | S n => replace_go ic r repl (c :: b) rest n
                 end
             | [] => []
             end
      | None =>
          match a with
          | c :: rest => c :: replace_go ic r repl (c :: b) rest 0
          | [] => []
          end
      end
  end.

Definition replace (ic : bool) (r : regex) (repl s : jsstring) : jsstring :=
  replace_go ic r repl [] s 0.

(** String.prototype.match with a global pattern: the matched texts in
    order, or null ([None]) when there is none. *)
Fixpoint match_go (ic : bool) (r : regex) (b a : jsstring) (skip : nat)
         {struct a} : list jsstring :=
  match skip with
  | S n =>
      match a with
      | c :: rest => match_go ic r (c :: b) rest n
      | [] => []
      end
  | O =>
      match exec_at ic r b a with
      | Some st =>
          firstn (mlen st) a
          :: match a with
             | c :: rest => match_go ic r (c :: b) rest (pred (mlen st))
             | [] => []
             end
      | None =>
          match a with
          | c :: rest => match_go ic r (c :: b) rest 0
          | [] => []
          end
      end
  end.

Definition str_match (ic : bool) (r : regex) (s : jsstring)
  : option (list jsstring) :=
  match match_go ic r [] s 0 with
  | [] => None
  | l => Some l
  end.

End RegExp.
Import RegExp.

(** ** Exceptions and object identity *)

Inductive js_error : Type := TypeError | SyntaxError.

Inductive result (A : Type) : Type :=
| Ok (a : A)
| Throw (e : js_error).
Arguments Ok {A} a.
Arguments Throw {A} e.

Definition rbind {A B : Type} (x : result A) (f : A -> result B) : result B :=
  match x with
  | Ok a => f a
  | Throw e => Throw e
  end.

(** Computations that may throw and that allocate objects: the state is
    the identity the next object literal receives. *)
Definition M (A : Type) : Type := nat -> result (A * nat).

Definition ret {A : Type} (a : A) : M A := fun n => Ok (a, n).
Definition bind {A B : Type} (x : M A) (f : A -> M B) : M B :=
  fun n =>
    match x n with
    | Ok (a, n') => f a n'
    | Throw e => Throw e
    end.
Definition lift {A : Type} (x : result A) : M A :=
  fun n =>
    match x with
    | Ok a => Ok (a, n)
    | Throw e => Throw e
    end.
Definition fresh : M nat := fun n => Ok (n, S n).

Declare Scope js_scope.
Delimit Scope js_scope with js.
Notation "x <- c1 ;; c2" := (bind c1 (fun x => c2))
  (at level 61, c1 at next level, right associativity) : js_scope.
Notation "'do' x <- c1 ; c2" := (rbind c1 (fun x => c2))
  (at level 61, x name, c1 at next level, right associativity) : js_scope.

(** [new RegExp(source, 'g')] for the sources the module builds: an
    escaped backslash and ordinary characters.  A dangling backslash is
    a SyntaxError; other escapes and the syntax characters lie outside
    the fragment and are reported the same way, so the constructor
    succeeds here only where the engine's does, with the same pattern. *)
Definition syntax_char (c : char) : bool := oneof "^$.*+?()[]{}|" c.

Fixpoint RegExp_new (src : jsstring) : result regex :=
  match src with
  | [] => Ok Eps
  | c :: r =>
      if eqc c 92%N then
        match r with
        | d :: r' =>
            if eqc d 92%N
            then rbind (RegExp_new r') (fun re => Ok (Cat (Chr 92%N) re))
            else Throw SyntaxError
        | [] => Throw SyntaxError
        end
      else if syntax_char c then Throw SyntaxError
      else rbind (RegExp_new r) (fun re => Ok (Cat (Chr c) re))
  end.

(** ** The parser *)

Module LaTeXParser.

Local Open Scope string_scope.
Local Open Scope list_scope.
Local Open Scope nat_scope.
Local Open Scope js_scope.

Fixpoint alts (l : list regex) : regex :=
  match l with
  | [] => Eps
  | [r] => r
  | r :: l' => Alt r (alts l')
  end.

(** Common LaTeX symbols and their readable equivalents, in the order
    of the object literal (the order Object.entries walks). *)
Definition symbolMap : list (jsstring * jsstring) :=
  map (fun e => (js (fst e), js (snd e)))
  [ ("\alpha", "α"); ("\beta", "β"); ("\gamma", "γ"); ("\delta", "δ");
    ("\epsilon", "ε"); ("\zeta", "ζ"); ("\eta", "η"); ("\theta", "θ");
    ("\iota", "ι"); ("\kappa", "κ"); ("\lambda", "λ"); ("\mu", "μ");
    ("\nu", "ν"); ("\xi", "ξ"); ("\pi", "π"); ("\rho", "ρ");
    ("\sigma", "σ"); ("\tau", "τ"); ("\upsilon", "υ"); ("\phi", "φ");
    ("\chi", "χ"); ("\psi", "ψ"); ("\omega", "ω");
    ("\Gamma", "Γ"); ("\Delta", "Δ"); ("\Theta", "Θ"); ("\Lambda", "Λ");
    ("\Xi", "Ξ"); ("\Pi", "Π"); ("\Sigma", "Σ"); ("\Phi", "Φ");
    ("\Psi", "Ψ"); ("\Omega", "Ω");
    ("\infty", "∞"); ("\partial", "∂"); ("\nabla", "∇");
    ("\sum", "Σ"); ("\prod", "Π"); ("\int", "∫");
    ("\leq", "≤"); ("\geq", "≥"); ("\neq", "≠"); ("\approx", "≈");
    ("\pm", "±"); ("\times", "×"); ("\div", "÷"); ("\cdot", "·");
    ("\in", "∈"); ("\notin", "∉"); ("\subset", "⊂"); ("\supset", "⊃");
    ("\cup", "∪"); ("\cap", "∩"); ("\emptyset", "∅");
    ("\forall", "∀"); ("\exists", "∃"); ("\neg", "¬");
    ("\wedge", "∧"); ("\vee", "∨"); ("\Rightarrow", "⇒");
    ("\Leftrightarrow", "⇔");
    ("\rightarrow", "→"); ("\leftarrow", "←"); ("\leftrightarrow", "↔");
    ("\ldots", "..."); ("\cdots", "⋯"); ("\vdots", "⋮");
    ("\sqrt", "√"); ("\exp", "exp"); ("\log", "log"); ("\ln", "ln");
    ("\sin", "sin"); ("\cos", "cos"); ("\tan", "tan");
    ("\lim", "lim"); ("\max", "max"); ("\min", "min"); ("\arg", "arg") ].

(** *** clean *)

Definition re_display : regex := Alt (lit "\[") (lit "\]").       (* /\\\[|\\\]/g *)
Definition re_dollar : regex := Cat (lit "$") (Opt (lit "$")).    (* /\$\$?/g *)
Definition re_begin : regex :=                                    (* /\\begin\{[^}]+\}/g *)
  seq [lit "\begin{"; Plus (noneof "}"); lit "}"].
Definition re_end : regex :=                                      (* /\\end\{[^}]+\}/g *)
  seq [lit "\end{"; Plus (noneof "}"); lit "}"].
Definition re_amp : regex := lit "&".                             (* /&/g *)
Definition re_linebreak : regex := lit "\\".                      (* /\\\\/g *)
Definition re_ws : regex := Plus is_space.                        (* /\s+/g *)

Definition clean (latex : jsstring) : jsstring :=
  let s := trim latex in
  let s := replace false re_display (js "") s in
  let s := replace false re_dollar (js "") s in
  let s := replace false re_begin (js "") s in
  let s := replace false re_end (js "") s in
  let s := replace false re_amp (js " ") s in
  let s := replace false re_linebreak (js " ") s in
  let s := replace false re_ws (js " ") s in
  trim s.

(** *** toReadable *)

Definition braced : regex := Plus (noneof "}").                   (* [^}]+ *)

Definition re_frac : regex :=                     (* /\\frac\{([^}]+)\}\{([^}]+)\}/g *)
  seq [lit "\frac{"; Grp 1 braced; lit "}{"; Grp 2 braced; lit "}"].
Definition re_sup_braced : regex :=               (* /\^{([^}]+)}/g *)
  seq [lit "^{"; Grp 1 braced; lit "}"].
Definition re_sub_braced : regex :=               (* /_{([^}]+)}/g *)
  seq [lit "_{"; Grp 1 braced; lit "}"].
Definition re_sup : regex := seq [lit "^"; Grp 1 (Cls is_word)].  (* /\^(\w)/g *)
Definition re_sub : regex := seq [lit "_"; Grp 1 (Cls is_word)].  (* /_(\w)/g *)
Definition re_sqrt : regex :=                     (* /\\sqrt\{([^}]+)\}/g *)
  seq [lit "\sqrt{"; Grp 1 braced; lit "}"].
Definition re_sqrt_n : regex :=                   (* /\\sqrt\[(\d+)\]\{([^}]+)\}/g *)
  seq [lit "\sqrt["; Grp 1 (Plus is_digit); lit "]{"; Grp 2 braced; lit "}"].
Definition re_text : regex :=                     (* /\\text\{([^}]+)\}/g *)
  seq [lit "\text{"; Grp 1 braced; lit "}"].
Definition re_mathrm : regex :=                   (* /\\mathrm\{([^}]+)\}/g *)
  seq [lit "\mathrm{"; Grp 1 braced; lit "}"].
Definition re_mathbf : regex :=                   (* /\\mathbf\{([^}]+)\}/g *)
  seq [lit "\mathbf{"; Grp 1 braced; lit "}"].
Definition re_command : regex := seq [lit "\"; Plus is_letter].   (* /\\[a-zA-Z]+/g *)
Definition re_braces : regex := Cls (oneof "{}").                 (* /[{}]/g *)

(** One turn of the loop over the table:
    [result.replace(new RegExp(texCmd.replace(/\\/g, '\\\\'), 'g'), symbol)]. *)
Definition substitute (entry : jsstring * jsstring) (text : jsstring)
  : result jsstring :=
  let (texCmd, symbol) := entry in
  do re <- RegExp_new (replace false (lit "\") (js "\\") texCmd);
  Ok (replace false re symbol text).

Fixpoint substitute_all (table : list (jsstring * jsstring)) (text : jsstring)
  : result jsstring :=
  match table with
  | [] => Ok text
  | entry :: rest =>
      do text' <- substitute entry text;
      substitute_all rest text'
  end.

Definition toReadable (latex : jsstring) : result jsstring :=
  (* Replace symbols *)
  do result <- substitute_all symbolMap latex;
  (* Handle fractions *)
  let result := replace false re_frac (js "($1)/($2)") result in
  (* Handle superscripts and subscripts *)
  let result := replace false re_sup_braced (js "^($1)") result in
  let result := replace false re_sub_braced (js "_($1)") result in
  let result := replace false re_sup (js "^$1") result in
  let result := replace false re_sub (js "_$1") result in
  (* Handle sqrt *)
  let result := replace false re_sqrt (js "√($1)") result in
  let result := replace false re_sqrt_n (js "$1√($2)") result in
  (* Handle text *)
  let result := replace false re_text (js "$1") result in
  let result := replace false re_mathrm (js "$1") result in
  let result := replace false re_mathbf (js "$1") result in
  (* Clean up remaining backslashes *)
  let result := replace false re_command (js "") result in
  let result := replace false re_braces (js "") result in
  Ok (trim result).

(** *** extractVariables *)

(** An entry of the inventory is an object; two objects are the same
    element of a Set only when they are the same object. *)
Record Variable_ : Type := MkVariable {
  oid : nat;
  symbol : jsstring;
  latex : jsstring;
  type : string
}.

Definition new_variable (symbol latex : jsstring) (type : string) : M Variable_ :=
  i <- fresh ;; ret (MkVariable i symbol latex type).

(** Set.prototype.add: SameValueZero, which on objects is identity. *)
Definition Set_add (o : Variable_) (s : list Variable_) : list Variable_ :=
  if existsb (fun o' => oid o' =? oid o) s then s else s ++ [o].

(** The pattern list the function declares; nothing reads it. *)
Definition patterns : list regex :=
  [ seq [lit "\mathbf{"; Grp 1 (Plus is_word); lit "}"];      (* /\\mathbf\{(\w+)\}/g *)
    seq [lit "\boldsymbol{"; Grp 1 (Plus is_word); lit "}"];  (* /\\boldsymbol\{(\w+)\}/g *)
    seq [lit "\vec{"; Grp 1 (Plus is_word); lit "}"];         (* /\\vec\{(\w+)\}/g *)
    seq [lit "\hat{"; Grp 1 (Plus is_word); lit "}"];         (* /\\hat\{(\w+)\}/g *)
    seq [Grp 1 (Cls is_letter); lit "_"; Opt (lit "{");       (* /([a-zA-Z])_\{?(\w+)?\}?/g *)
         Opt (Grp 2 (Plus is_word)); Opt (lit "}")] ].

Definition backslash_or_letter (c : char) : bool :=               (* [\\a-zA-Z] *)
  oneof "\" c || is_letter c.

Definition re_latin : regex :=        (* /(?<![\\a-zA-Z])([a-zA-Z])(?![a-zA-Z])/g *)
  seq [NotBehind backslash_or_letter; Grp 1 (Cls is_letter); NotAhead is_letter].

(** Greek letters: one object per table command the text includes. *)
Fixpoint add_greek (table : list (jsstring * jsstring)) (text : jsstring)
         (variables : list Variable_) : M (list Variable_) :=
  match table with
  | [] => ret variables
  | (cmd, symbol) :: rest =>
      if includes text cmd then
        o <- new_variable symbol cmd "greek" ;;
        add_greek rest text (Set_add o variables)
      else add_greek rest text variables
  end.

(** Latin letters: the forEach over the matches. *)
Fixpoint add_latin (matches : list jsstring) (variables : list Variable_)
  : M (list Variable_) :=
  match matches with
  | [] => ret variables
  | v :: rest =>
      if negb (existsb (str_eqb v) [js "d"; js "e"; js "i"]) then
        o <- new_variable v v "latin" ;;
        add_latin rest (Set_add o variables)
      else add_latin rest variables
  end.

Definition extractVariables (text : jsstring) : M (list Variable_) :=
  let variables := [] in
  variables <- add_greek symbolMap text variables ;;
  let latinMatches := str_match false re_latin text in
  variables <-
    match latinMatches with
    | Some l => add_latin l variables
    | None => ret variables                (* null is falsy *)
    end ;;
  ret variables.                           (* Array.from(variables) *)

(** *** extractOperators, extractFunctions *)

Definition opPatterns : list (string * regex) :=
  [ ("sum", lit "\sum");                                          (* /\\sum/g *)
    ("product", lit "\prod");                                     (* /\\prod/g *)
    ("integral", lit "\int");                                     (* /\\int/g *)
    ("limit", lit "\lim");                                        (* /\\lim/g *)
    ("expectation",                                               (* /\\mathbb\{E\}|\\E\b/g *)
     Alt (lit "\mathbb{E}") (seq [lit "\E"; WordB]));
    ("probability",                                               (* /\\mathbb\{P\}|\\Pr?\b/g *)
     Alt (lit "\mathbb{P}") (seq [lit "\P"; Opt (lit "r"); WordB]));
    ("gradient", lit "\nabla");                                   (* /\\nabla/g *)
    ("argmax", seq [lit "\arg"; Star is_space; lit "\max"]);      (* /\\arg\s*\\max/g *)
    ("argmin", seq [lit "\arg"; Star is_space; lit "\min"]) ].    (* /\\arg\s*\\min/g *)

(** The names whose (fresh, global) pattern tests true, in table order. *)
Definition present (ic : bool) (table : list (string * regex)) (text : jsstring)
  : list string :=
  map fst (filter (fun e => test ic (snd e) text) table).

Definition extractOperators (text : jsstring) : list string :=
  present false opPatterns text.

Definition re_norm : regex :=               (* /\\|\s*\|.*?\|\s*\\||\|.*?\|/g *)
  alts [ lit "\";
         seq [Star is_space; lit "|"; LazyStar is_dot; lit "|"; Star is_space; lit "\"];
         Eps;
         seq [lit "|"; LazyStar is_dot; lit "|"] ].

(** Each pattern with its ignoreCase flag. *)
Definition funcPatterns : list (string * (bool * regex)) :=
  [ ("exponential", (false, Alt (lit "\exp") (lit "e^")));        (* /\\exp|e\^/g *)
    ("logarithm", (false, Alt (lit "\log") (lit "\ln")));         (* /\\log|\\ln/g *)
    ("softmax", (true, lit "softmax"));                           (* /softmax/gi *)
    ("sigmoid", (true, Alt (lit "sigmoid") (lit "\sigma")));      (* /sigmoid|\\sigma/gi *)
    ("relu", (true, lit "relu"));                                 (* /relu/gi *)
    ("tanh", (true, Alt (lit "\tanh") (lit "tanh")));             (* /\\tanh|tanh/gi *)
    ("loss", (true, Alt (lit "\mathcal{L}") (lit "loss")));       (* /\\mathcal\{L\}|loss/gi *)
    ("norm", (false, re_norm)) ].

Definition extractFunctions (text : jsstring) : list string :=
  map fst (filter (fun e => test (fst (snd e)) (snd (snd e)) text) funcPatterns).

(** *** estimateComplexity, countNesting *)

(** Count brace nesting depth; the running depth may go below zero. *)
Fixpoint countNesting_go (chars : list N) (maxDepth currentDepth : Z) : Z :=
  match chars with
  | [] => maxDepth
  | char :: rest =>
      if eqc char (char_of "{") then
        let currentDepth := (currentDepth + 1)%Z in
        countNesting_go rest (Z.max maxDepth currentDepth) currentDepth
      else if eqc char (char_of "}") then
        countNesting_go rest maxDepth (currentDepth - 1)%Z
      else countNesting_go rest maxDepth currentDepth
  end.

Definition countNesting (text : jsstring) : Z :=
  countNesting_go (code_points text) 0 0.

Definition re_matrix : regex :=                   (* /\\begin\{[pbvBV]?matrix\}/ *)
  seq [lit "\begin{"; Opt (Cls (oneof "pbvBV")); lit "matrix}"].

Definition re_ops : regex :=                      (* /\\(sum|prod|int|lim|frac)/g *)
  seq [lit "\"; Grp 1 (alts [lit "sum"; lit "prod"; lit "int"; lit "lim"; lit "frac"])].

(** [(x || [])]: null gives way to the empty array. *)
Definition or_empty {A : Type} (x : option (list A)) : list A :=
  match x with
  | Some l => l
  | None => []
  end.

(** The sum before the final clamp. *)
Definition rawComplexity (text : jsstring) : Z :=
  let score := 1%Z in
  (* Length factor *)
  let score := (score + Z.min 3 (Z.of_nat (List.length text) / 50))%Z in
  (* Nesting factor *)
  let depth := countNesting text in
  let score := (score + Z.min 2 depth)%Z in
  (* Operator factor *)
  let opCount := Z.of_nat (List.length (or_empty (str_match false re_ops text))) in
  let score := (score + Z.min 2 opCount)%Z in
  (* Matrix factor *)
  let score := if test false re_matrix text then (score + 2)%Z else score in
  score.

Definition estimateComplexity (text : jsstring) : Z :=
  Z.min 10 (rawComplexity text).

(** *** analyzeStructure *)

Record EquationStructure : Type := MkStructure {
  isEquation : bool;
  isInequality : bool;
  isDefinition : bool;
  hasSummation : bool;
  hasIntegral : bool;
  hasFraction : bool;
  hasMatrix : bool;
  complexity : Z;
  eqtype : string                       (* the field [type] *)
}.

Definition analyzeStructure (text : jsstring) : EquationStructure :=
  let isEquation := includes text (js "=") in
  let isInequality := test false (Cls (oneof "<>≤≥")) text in
  let isDefinition := includes text (js ":=") || includes text (js "\triangleq") in
  let hasSummation := test false (lit "\sum") text in
  let hasIntegral := test false (lit "\int") text in
  let hasFraction := test false (lit "\frac") text in
  let hasMatrix := test false re_matrix text in
  let complexity := estimateComplexity text in
  (* Determine equation type *)
  MkStructure isEquation isInequality isDefinition hasSummation hasIntegral
              hasFraction hasMatrix complexity
    (if hasSummation && (includes text (js "loss") || includes text (js "\mathcal{L}"))
     then "loss_function"
     else if includes text (js "\nabla") || includes text (js "\partial")
     then "gradient"
     else if includes text (js "\mathbb{E}") || includes text (js "\Pr")
     then "probability"
     else if hasMatrix then "matrix_operation"
     else if hasSummation then "summation"
     else "general").

(** *** parse *)

Record ParsedEquation : Type := MkParsed {
  original : jsstring;
  cleaned : jsstring;
  readable : jsstring;
  variables : list Variable_;
  operators : list string;
  functions : list string;
  structure : EquationStructure
}.

Definition parse (text : jsstring) : M ParsedEquation :=
  let cleaned := clean text in
  readable <- lift (toReadable cleaned) ;;
  variables <- extractVariables cleaned ;;
  let operators := extractOperators cleaned in
  let functions := extractFunctions cleaned in
  let structure := analyzeStructure cleaned in
  ret (MkParsed text cleaned readable variables operators functions structure).

End LaTeXParser.
Import LaTeXParser.

(** ** Reference forms used in the proofs

    Plain list functions and predicates that the stages of [clean] are
    shown to compute or to establish. *)

Module Stages.

(** What [replace(/\$\$?/g, '')] leaves. *)
Definition erase_dollars (s : jsstring) : jsstring :=
  filter (fun c => negb (eqc c 36%N)) s.

(** What [replace(/&/g, ' ')] leaves. *)
Definition amp_to_space (s : jsstring) : jsstring :=
  map (fun c => if eqc c 38%N then 32%N else c) s.

(** Number of leading characters of a class. *)
Fixpoint run (p : char -> bool) (s : jsstring) : nat :=
  match s with
  | c :: r => if p c then S (run p r) else 0
  | [] => 0
  end.

(** What [replace(/\s+/g, ' ')] leaves; [inside] says that the
    whitespace run at hand has already been replaced. *)
Fixpoint collapse_from (inside : bool) (s : jsstring) : jsstring :=
  match s with
  | [] => []
  | c :: r =>
      if is_space c
      then if inside then collapse_from true r else 32%N :: collapse_from true r
      else c :: collapse_from false r
  end.

(** No two backslashes in a row; [pb] says the character before the
    text is a backslash. *)
Fixpoint nbb (pb : bool) (s : jsstring) : bool :=
  match s with
  | [] => true
  | c :: r => if eqc c 92%N then negb pb && nbb true r else nbb false r
  end.

(** Whitespace in normal form: every whitespace character is a space
    that follows a non-space; [ps] says the character before the text
    is whitespace (or that the text starts the string). *)
Fixpoint wsn (ps : bool) (s : jsstring) : bool :=
  match s with
  | [] => true
  | c :: r =>
      if is_space c then eqc c 32%N && negb ps && wsn true r else wsn false r
  end.

(** The pattern source [toReadable] hands to the RegExp constructor
    for a table command compiles. *)
Definition compiles (e : jsstring * jsstring) : Prop :=
  exists re, RegExp_new (replace false (lit "\") (js "\\") (fst e)) = Ok re.

(** A replacement template without references: it is inserted as it
    is, whatever was matched. *)
Definition plain (r : regex) (repl : jsstring) : Prop :=
  forall mt pre post cs, GetSubstitution mt pre post cs (ngroups r) repl = repl.

(** A pattern that cannot match the empty string (a sufficient
    syntactic test). *)
Fixpoint nonempty (r : regex) : bool :=
  match r with
  | Chr _ | Cls _ | Plus _ => true
  | Cat a b => nonempty a || nonempty b
  | Alt a b => nonempty a && nonempty b
  | Grp _ a => nonempty a
  | _ => false
  end.

(** [st'] lies [d] or more characters further in the same text as [st]. *)
Definition further (d : nat) (st st' : mstate) : Prop :=
  mlen st' + List.length (after st') = mlen st + List.length (after st)
  /\ mlen st + d <= mlen st'.

(** A record's braces. *)
Definition brace_free (s : jsstring) : Prop :=
  ~ In (char_of "{") s /\ ~ In (char_of "}") s.

End Stages.
Import Stages.

(** ** Extractors: the string functions of the arXiv extractor

    The extractors of the same file read the page through the DOM; the
    two functions below depend on their string argument alone. *)

Module Extractors.

Local Open Scope string_scope.
Local Open Scope list_scope.

(** RegExp.prototype.exec for a pattern without the global flag: the
    leftmost match, or null. *)
Fixpoint exec_from (ic : bool) (r : regex) (b a : jsstring) : option mstate :=
  match exec_at ic r b a with
  | Some st => Some st
  | None =>
      match a with
      | c :: rest => exec_from ic r (c :: b) rest
      | [] => None
      end
  end.

(** arxiv.detect(url, doc); the document is not looked at. *)
Definition arxiv_detect (url : jsstring) : bool :=
  includes url (js "arxiv.org")
  && (includes url (js "/abs/") || includes url (js "/pdf/")).

Definition re_arxiv_id : regex :=                 (* /\/(?:abs|pdf)\/(\d+\.\d+)/ *)
  seq [lit "/"; Alt (lit "abs") (lit "pdf"); lit "/";
       Grp 1 (seq [Plus is_digit; lit "."; Plus is_digit])].

(** arxiv.extractArxivId(pathname): [match ? match[1] : null]. *)
Definition extractArxivId (pathname : jsstring) : option jsstring :=
  match exec_from false re_arxiv_id [] pathname with
  | Some st => Some (capture 1 (caps st))
  | None => None
  end.

End Extractors.
Import Extractors.

(** ** Reference forms for the inventories and the nesting count *)

Module Inventory.

Local Open Scope string_scope.
Local Open Scope list_scope.

(** The letters extractVariables passes over. *)
Definition reserved (v : jsstring) : bool :=
  existsb (str_eqb v) [js "d"; js "e"; js "i"].

(** The table entries whose command occurs in the text. *)
Definition greek_hits (text : jsstring) : list (jsstring * jsstring) :=
  filter (fun e => includes text (fst e)) symbolMap.

(** The isolated letters of the text that are not reserved. *)
Definition latin_hits (text : jsstring) : list jsstring :=
  filter (fun v => negb (reserved v)) (or_empty (str_match false re_latin text)).

(** What an entry of the inventory shows: symbol, latex, type. *)
Definition entry (v : Variable_) : jsstring * jsstring * string :=
  (symbol v, latex v, type v).

(** Occurrences of a character. *)
Definition occurrences (c : char) (s : list N) : nat :=
  List.length (filter (eqc c) s).

(** The objects made so far carry identities below the next one. *)
Definition allocated (n : nat) (vs : list Variable_) : Prop :=
  forall o, In o vs -> oid o < n.

(** The pattern begins with a given literal character. *)
Definition heads_with (c : char) (r : regex) : bool :=
  match r with
  | Cat (Chr x) _ => eqc x c
  | Cat (Cat (Chr x) _) _ => eqc x c
  | _ => false
  end.

(** The text is made of ASCII digits, at least one. *)
Definition digits (s : jsstring) : Prop :=
  s <> [] /\ forallb is_digit s = true.

End Inventory.
Import Inventory.

(** ** Tactics for running the matcher on a partly known text *)

(** Literal patterns are brought to their characters. *)
Ltac norm_lit :=
  repeat match goal with
         | |- context [lit ?s] =>
             let v := eval vm_compute in (lit s) in change (lit s) with v
         | H : context [lit ?s] |- _ =>
             let v := eval vm_compute in (lit s) in change (lit s) with v in H
         end.

(** The matcher is unfolded as far as the known characters go. *)
Ltac run_matcher :=
  cbn [m after advance canon andb mlen before caps star_greedy at_pos Nat.eqb] in *.

(** A failed match cannot be a match. *)
Ltac absurd_none H :=
  exfalso; apply H;
  repeat match goal with
         | |- context [if ?c then _ else _] => destruct c
         end;
  reflexivity.

(** One literal character of the pattern in [H]: the character at
    hand is that one. *)
Ltac eat_char H :=
  match type of H with
  | context [if eqc ?x ?c then _ else _] =>
      is_var x; let E := fresh "E" in
      destruct (eqc x c) eqn:E;
      [apply N.eqb_eq in E; subst x|absurd_none H]
  end;
  run_matcher.

(** The same, after taking the next character of the text. *)
Ltac eat H :=
  match type of H with
  | context [match ?l with [] => _ | _ :: _ => _ end] =>
      is_var l; destruct l as [|? l]; [absurd_none H|]
  end;
  eat_char H.

(** One step into a concatenation, keeping the parts folded. *)
Ltac step_cat :=
  match goal with
  | |- m ?ic (Cat ?a ?b) ?st ?K = ?rhs =>
      change (m ic a st (fun st' => m ic b st' K) = rhs); cbv beta
  end.

(** The same step in a hypothesis. *)
Ltac step_cat_in H :=
  match type of H with
  | m ?ic (Cat ?a ?b) ?st ?K = ?rhs =>
      change (m ic a st (fun st' => m ic b st' K) = rhs) in H; cbv beta in H
  end.

(** ** Strings: trimming *)

Section TrimFacts.

Lemma trimStart_incl (s : jsstring) (c : char) :
  In c (trimStart s) -> In c s.
Proof.
  induction s as [|x r IH]; simpl; [tauto|].
  destruct (is_space x); simpl; tauto.
Qed.

Lemma trimEnd_cons (c : char) (r : jsstring) :
  trimEnd (c :: r) =
  if match trimEnd r with [] => is_space c | _ => false end
  then [] else c :: trimEnd r.
Proof.
  simpl. destruct (trimEnd r); [destruct (is_space c)|]; reflexivity.
Qed.

Lemma trimEnd_incl (s : jsstring) (c : char) :
  In c (trimEnd s) -> In c s.
Proof.
  induction s as [|x r IH]; [simpl; tauto|].
  rewrite trimEnd_cons.
  destruct (match trimEnd r with [] => is_space x | _ => false end);
    simpl; tauto.
Qed.

Lemma trim_incl (s : jsstring) (c : char) : In c (trim s) -> In c s.
Proof.
  unfold trim. intros H. apply trimStart_incl, trimEnd_incl, H.
Qed.

End TrimFacts.

(** ** Replacement by a pattern of one character class *)

Lemma replace_class_erase (ic : bool) (p : char -> bool) (a b : jsstring) :
  replace_go ic (Cls p) [] b a 0 = filter (fun c => negb (p c)) a.
Proof.
  revert b. induction a as [|c rest IH]; intros b; [reflexivity|].
  cbn [replace_go filter]. unfold exec_at. cbn [m after].
  destruct (p c); cbn; rewrite IH; reflexivity.
Qed.

(** ** Totality of the pipeline *)

Section Totality.

Lemma substitute_all_ok (table : list (jsstring * jsstring)) :
  Forall compiles table ->
  forall text, exists t, substitute_all table text = Ok t.
Proof.
  induction 1 as [|e rest [re Hre] _ IH]; intros text; simpl.
  - eauto.
  - unfold substitute. destruct e as [texCmd sym]. simpl in Hre.
    rewrite Hre. simpl. apply IH.
Qed.

Lemma symbolMap_compiles : Forall compiles symbolMap.
Proof.
  unfold symbolMap. cbn [map].
  repeat (constructor; [eexists; vm_compute; reflexivity|]).
  constructor.
Qed.

Lemma toReadable_ok (s : jsstring) :
  exists x, toReadable s = Ok (trim (replace false re_braces (js "") x)).
Proof.
  unfold toReadable.
  destruct (substitute_all_ok symbolMap_compiles s) as [t Ht].
  rewrite Ht. simpl. eexists. reflexivity.
Qed.

Lemma add_greek_ok (table : list (jsstring * jsstring)) (text : jsstring) :
  forall vs n, exists vs' n', add_greek table text vs n = Ok (vs', n').
Proof.
  induction table as [|[cmd sym] rest IH]; intros vs n; simpl.
  - unfold ret. eauto.
  - destruct (includes text cmd); [|apply IH].
    unfold bind, new_variable, bind, fresh, ret. apply IH.
Qed.

Lemma add_latin_ok (l : list jsstring) :
  forall vs n, exists vs' n', add_latin l vs n = Ok (vs', n').
Proof.
  induction l as [|v rest IH]; intros vs n; simpl.
  - unfold ret. eauto.
  - destruct (negb _); [|apply IH].
    unfold bind, new_variable, bind, fresh, ret. apply IH.
Qed.

Lemma extractVariables_ok (text : jsstring) (n : nat) :
  exists vs n', extractVariables text n = Ok (vs, n').
Proof.
  unfold extractVariables, bind.
  destruct (add_greek_ok symbolMap text [] n) as (vs & n1 & H1).
  rewrite H1.
  destruct (str_match false re_latin text) as [l|].
  - destruct (add_latin_ok l vs n1) as (vs2 & n2 & H2). rewrite H2.
    unfold ret. eauto.
  - unfold ret. eauto.
Qed.

(** The record [parse] returns, field by field. *)
Lemma parse_ok (s : jsstring) (n : nat) :
  exists x vs n',
    parse s n =
    Ok (MkParsed s (clean s)
                 (trim (replace false re_braces (js "") x)) vs
                 (extractOperators (clean s)) (extractFunctions (clean s))
                 (analyzeStructure (clean s)), n').
Proof.
  unfold parse, bind, lift.
  destruct (toReadable_ok (clean s)) as [x Hx]. rewrite Hx.
  destruct (extractVariables_ok (clean s) n) as (vs & n' & Hv). rewrite Hv.
  unfold ret. eauto.
Qed.

End Totality.

(** ** Generic facts about global replacement *)

Section ReplaceFacts.

Variable ic : bool.
Variable r : regex.

(** Where the pattern matches nowhere, nothing is replaced. *)
Lemma replace_no_match (repl a : jsstring) :
  forall b, test_from ic r b a = false -> replace_go ic r repl b a 0 = a.
Proof.
  induction a as [|c rest IH]; intros b H; simpl in *.
  - destruct (exec_at ic r b []); [discriminate|reflexivity].
  - destruct (exec_at ic r b (c :: rest)); [discriminate|].
    f_equal. apply IH, H.
Qed.

Lemma replace_go_incl (repl a : jsstring) (c : char) :
  plain r repl ->
  forall b skip, In c (replace_go ic r repl b a skip) -> In c a \/ In c repl.
Proof.
  intros Hp. induction a as [|x rest IH]; intros b skip; simpl.
  - destruct skip; [|simpl; tauto].
    destruct (exec_at ic r b []) as [st|]; [|simpl; tauto].
    rewrite Hp, app_nil_r. tauto.
  - destruct skip as [|k].
    + destruct (exec_at ic r b (x :: rest)) as [st|].
      * rewrite Hp. intros H. apply in_app_or in H. destruct H as [H|H]; [tauto|].
        destruct (mlen st).
        -- destruct H as [H|H]; [tauto|]. apply IH in H. tauto.
        -- apply IH in H. tauto.
      * intros [H|H]; [tauto|]. apply IH in H. tauto.
    + intros H. apply IH in H. tauto.
Qed.

End ReplaceFacts.

(** ** The stages of clean *)

Lemma re_dollar_eq : re_dollar = Cat (Cat (Chr 36%N) Eps) (Opt (Cat (Chr 36%N) Eps)).
Proof. reflexivity. Qed.
Lemma re_amp_eq : re_amp = Cat (Chr 38%N) Eps.
Proof. reflexivity. Qed.
Lemma re_linebreak_eq : re_linebreak = Cat (Chr 92%N) (Cat (Chr 92%N) Eps).
Proof. reflexivity. Qed.

Lemma canon_false (c : char) : canon false c = c.
Proof. reflexivity. Qed.

(** [replace(/\$\$?/g, '')] erases every dollar sign. *)
Lemma dollar_stage_go (a : jsstring) :
  forall b skip, skip <= run (fun c => eqc c 36%N) a ->
    replace_go false re_dollar [] b a skip = erase_dollars a.
Proof.
  rewrite re_dollar_eq.
  induction a as [|c rest IH]; intros b skip Hs.
  - simpl in Hs. assert (skip = 0) by lia. subst. reflexivity.
  - destruct skip as [|k].
    + cbn [replace_go]. unfold exec_at. cbn [m after mlen advance before caps canon andb].
      unfold erase_dollars. cbn [filter].
      destruct (eqc c 36%N) eqn:Hc; cbn [negb].
      * destruct rest as [|d rest'].
        -- reflexivity.
        -- destruct (eqc d 36%N) eqn:Hd; cbn.
           ++ apply (IH (c :: b) 1). simpl. rewrite Hd. lia.
           ++ apply (IH (c :: b) 0). lia.
      * f_equal. apply (IH (c :: b) 0). lia.
    + simpl in Hs. destruct (eqc c 36%N) eqn:Hc; [|lia].
      cbn [replace_go]. unfold erase_dollars. cbn [filter]. rewrite Hc. cbn [negb].
      apply IH. lia.
Qed.

(** [replace(/&/g, ' ')] turns every ampersand into a space. *)
Lemma amp_stage_go (a : jsstring) :
  forall b, replace_go false re_amp [32%N] b a 0 = amp_to_space a.
Proof.
  rewrite re_amp_eq.
  induction a as [|c rest IH]; intros b; [reflexivity|].
  cbn [replace_go]. unfold exec_at. cbn [m after mlen advance canon andb].
  unfold amp_to_space. cbn [map].
  destruct (eqc c 38%N); cbn; f_equal; apply IH.
Qed.

Lemma nbb_weaken (s : jsstring) : nbb true s = true -> nbb false s = true.
Proof.
  destruct s as [|c r]; simpl; [trivial|].
  destruct (eqc c 92%N); [discriminate|trivial].
Qed.

(** After [replace(/\\\\/g, ' ')] no two backslashes are adjacent. *)
Lemma linebreak_stage_nbb (n : nat) :
  forall a b, List.length a <= n ->
    nbb false (replace_go false re_linebreak [32%N] b a 0) = true
    /\ (hd 0%N a <> 92%N ->
        nbb true (replace_go false re_linebreak [32%N] b a 0) = true).
Proof.
  rewrite re_linebreak_eq.
  induction n as [|n IH]; intros a b Hn.
  - destruct a; [|simpl in Hn; lia]. split; reflexivity.
  - destruct a as [|c rest]; [split; reflexivity|].
    simpl in Hn.
    cbn [replace_go]. unfold exec_at. cbn [m after mlen advance canon andb hd].
    destruct (eqc c 92%N) eqn:Hc.
    + destruct rest as [|d rest'].
      * cbn. rewrite Hc. split; [reflexivity|].
        intros H. apply N.eqb_eq in Hc. contradiction.
      * destruct (eqc d 92%N) eqn:Hd.
        -- cbn. simpl in Hn.
           destruct (IH rest' (d :: c :: b)) as [H1 _]; [lia|].
           split; [exact H1|]. intros H. apply N.eqb_eq in Hc. contradiction.
        -- cbn [nbb]. rewrite Hc. cbn [negb andb].
           destruct (IH (d :: rest') (c :: b)) as [_ H2]; [lia|].
           split.
           ++ apply H2. simpl. intros E. subst d. discriminate.
           ++ intros H. apply N.eqb_eq in Hc. contradiction.
    + cbn [nbb]. rewrite Hc.
      destruct (IH rest (c :: b)) as [H1 _]; [lia|]. split; intros; exact H1.
Qed.

(** Where no two backslashes are adjacent, [replace(/\\\\/g, ' ')]
    changes nothing. *)
Lemma linebreak_fixed (a : jsstring) :
  forall b, nbb false a = true ->
    replace_go false re_linebreak [32%N] b a 0 = a.
Proof.
  rewrite re_linebreak_eq.
  induction a as [|c rest IH]; intros b H; [reflexivity|].
  cbn [replace_go]. unfold exec_at. cbn [m after mlen advance canon andb].
  simpl in H.
  destruct (eqc c 92%N) eqn:Hc.
  - simpl in H. destruct rest as [|d rest'].
    + reflexivity.
    + destruct (eqc d 92%N) eqn:Hd.
      * simpl in H. rewrite Hd in H. discriminate.
      * f_equal. apply IH. apply nbb_weaken, H.
  - f_equal. apply IH, H.
Qed.

(** The greedy star runs to the end of the run of its class. *)
Lemma star_greedy_run (p : char -> bool) (cs : list (nat * jsstring)) (a : jsstring) :
  forall b n, exists st,
    star_greedy p b a n (fun b' a' n' => Some (MState b' a' n' cs)) = Some st
    /\ mlen st = n + run p a.
Proof.
  induction a as [|c rest IH]; intros b n; simpl.
  - eexists. split; [reflexivity|]. simpl. lia.
  - destruct (p c).
    + destruct (IH (c :: b) (S n)) as (st & Hst & Hl). rewrite Hst.
      eexists. split; [reflexivity|]. lia.
    + eexists. split; [reflexivity|]. simpl. lia.
Qed.

Lemma collapse_inside_nonspace (a : jsstring) :
  run is_space a = 0 -> collapse_from true a = collapse_from false a.
Proof.
  destruct a as [|c r]; simpl; [trivial|].
  destruct (is_space c); [discriminate|trivial].
Qed.

(** [replace(/\s+/g, ' ')] is [collapse_from]. *)
Lemma ws_stage_go (a : jsstring) :
  forall b,
    replace_go false re_ws [32%N] b a 0 = collapse_from false a
    /\ replace_go false re_ws [32%N] b a (run is_space a) = collapse_from true a.
Proof.
  unfold re_ws.
  induction a as [|c rest IH]; intros b; [split; reflexivity|].
  assert (H0 : replace_go false (Plus is_space) [32%N] b (c :: rest) 0
               = collapse_from false (c :: rest)).
  { cbn [replace_go]. unfold exec_at. cbn [m after mlen before caps].
    cbn [collapse_from].
    destruct (is_space c) eqn:Hc.
    - destruct (star_greedy_run is_space [] rest (c :: b) 1) as (st & Hst & Hl).
      unfold at_pos. cbn [caps]. rewrite Hst, Hl. cbn.
      f_equal. apply IH.
    - f_equal. apply IH. }
  split; [exact H0|].
  cbn [run]. destruct (is_space c) eqn:Hc.
  - cbn [replace_go collapse_from]. rewrite Hc. apply IH.
  - rewrite H0. symmetry. apply collapse_inside_nonspace. simpl. rewrite Hc. reflexivity.
Qed.

(** *** Normal forms *)

Lemma collapse_wsn (s : jsstring) :
  wsn false (collapse_from false s) = true
  /\ wsn true (collapse_from true s) = true.
Proof.
  induction s as [|c r [IH1 IH2]]; [split; reflexivity|].
  cbn [collapse_from]. destruct (is_space c) eqn:Hc.
  - split; [|exact IH2]. cbn [wsn]. change (is_space 32%N) with true. cbn. exact IH2.
  - cbn [wsn]. rewrite Hc. split; exact IH1.
Qed.

Lemma collapse_fixed (s : jsstring) :
  forall ps, wsn ps s = true -> collapse_from ps s = s.
Proof.
  induction s as [|c r IH]; intros ps H; [reflexivity|].
  cbn [wsn collapse_from] in *. destruct (is_space c).
  - apply andb_prop in H. destruct H as [H H3].
    apply andb_prop in H. destruct H as [H1 H2].
    destruct ps; [discriminate|].
    apply N.eqb_eq in H1. subst c. f_equal. apply IH, H3.
  - f_equal. apply IH, H.
Qed.

Lemma collapse_nbb (s : jsstring) :
  forall pb, nbb pb s = true ->
    nbb pb (collapse_from false s) = true
    /\ nbb false (collapse_from true s) = true.
Proof.
  induction s as [|c r IH]; intros pb H; [split; [exact H|reflexivity]|].
  cbn [collapse_from]. cbn [nbb] in H.
  destruct (is_space c) eqn:Hc.
  - assert (Hn : eqc c 92%N = false).
    { destruct (eqc c 92%N) eqn:E; [|reflexivity].
      apply N.eqb_eq in E. subst c. discriminate. }
    rewrite Hn in H. destruct (IH false H) as [_ H2].
    split; [|exact H2]. cbn. exact H2.
  - cbn [nbb]. destruct (eqc c 92%N).
    + apply andb_prop in H. destruct H as [Hp H].
      destruct (IH true H) as [H1 _]. rewrite H1.
      split; [rewrite Hp|]; reflexivity.
    + destruct (IH false H) as [H1 _]. split; exact H1.
Qed.

Lemma space_not_backslash (c : char) : is_space c = true -> eqc c 92%N = false.
Proof.
  intros H. destruct (eqc c 92%N) eqn:E; [|reflexivity].
  apply N.eqb_eq in E. subst c. discriminate.
Qed.

Lemma trimStart_nbb (s : jsstring) :
  forall pb, nbb pb s = true -> nbb false (trimStart s) = true.
Proof.
  induction s as [|c r IH]; intros pb H; [reflexivity|].
  cbn [trimStart]. destruct (is_space c) eqn:Hc.
  - cbn [nbb] in H. rewrite (space_not_backslash _ Hc) in H. apply (IH false H).
  - destruct pb; [apply nbb_weaken|]; exact H.
Qed.

Lemma trimEnd_nbb (s : jsstring) :
  forall pb, nbb pb s = true -> nbb pb (trimEnd s) = true.
Proof.
  induction s as [|c r IH]; intros pb H; [reflexivity|].
  rewrite trimEnd_cons.
  destruct (match trimEnd r with [] => is_space c | _ => false end);
    [reflexivity|].
  cbn [nbb] in *. destruct (eqc c 92%N).
  - apply andb_prop in H. destruct H as [Hp H]. rewrite Hp. apply (IH true H).
  - apply (IH false H).
Qed.

Lemma trimStart_wsn (s : jsstring) :
  forall ps, wsn ps s = true -> wsn false (trimStart s) = true.
Proof.
  induction s as [|c r IH]; intros ps H; [reflexivity|].
  cbn [trimStart]. destruct (is_space c) eqn:Hc.
  - cbn [wsn] in H. rewrite Hc in H.
    apply andb_prop in H. destruct H as [_ H]. apply (IH true H).
  - cbn [wsn] in *. rewrite Hc in *. exact H.
Qed.

Lemma trimEnd_wsn (s : jsstring) :
  forall ps, wsn ps s = true -> wsn ps (trimEnd s) = true.
Proof.
  induction s as [|c r IH]; intros ps H; [reflexivity|].
  rewrite trimEnd_cons.
  destruct (match trimEnd r with [] => is_space c | _ => false end);
    [reflexivity|].
  cbn [wsn] in *. destruct (is_space c).
  - apply andb_prop in H. destruct H as [H1 H]. rewrite H1. apply (IH true H).
  - apply (IH false H).
Qed.

Lemma trimEnd_idem (s : jsstring) : trimEnd (trimEnd s) = trimEnd s.
Proof.
  induction s as [|c r IH]; [reflexivity|].
  rewrite trimEnd_cons.
  destruct (match trimEnd r with [] => is_space c | _ => false end) eqn:E;
    [reflexivity|].
  rewrite trimEnd_cons, IH, E. reflexivity.
Qed.

Lemma trimStart_trimEnd (s : jsstring) :
  trimStart s = s -> trimStart (trimEnd s) = trimEnd s.
Proof.
  destruct s as [|c r]; [trivial|].
  rewrite trimEnd_cons. cbn [trimStart].
  destruct (is_space c) eqn:Hc.
  - intros H. exfalso.
    assert (L : List.length (trimStart r) <= List.length r).
    { clear. induction r as [|x r IH]; simpl; [lia|].
      destruct (is_space x); simpl; lia. }
    rewrite H in L. simpl in L. lia.
  - intros _.
    destruct (match trimEnd r with [] => false | _ => false end) eqn:E.
    + destruct (trimEnd r); discriminate.
    + destruct (trimEnd r); cbn [trimStart]; rewrite Hc; reflexivity.
Qed.

Lemma trimStart_idem (s : jsstring) : trimStart (trimStart s) = trimStart s.
Proof.
  induction s as [|c r IH]; [reflexivity|].
  cbn [trimStart]. destruct (is_space c) eqn:Hc; [exact IH|].
  cbn [trimStart]. rewrite Hc. reflexivity.
Qed.

Lemma trim_idem (s : jsstring) : trim (trim s) = trim s.
Proof.
  unfold trim.
  rewrite (trimStart_trimEnd (trimStart_idem s)).
  apply trimEnd_idem.
Qed.

(** *** The cleaned string *)

Lemma plain_empty (r : regex) : plain r [].
Proof. intros mt pre post cs. reflexivity. Qed.

Lemma plain_space (r : regex) : plain r [32%N].
Proof. intros mt pre post cs. reflexivity. Qed.

Lemma replace_erase_keeps_out (r : regex) (c : char) (s : jsstring) :
  ~ In c s -> ~ In c (replace false r [] s).
Proof.
  intros H Hin. unfold replace in Hin.
  apply replace_go_incl in Hin; [|apply plain_empty].
  simpl in Hin. tauto.
Qed.

Lemma replace_space_keeps_out (r : regex) (c : char) (s : jsstring) :
  c <> 32%N -> ~ In c s -> ~ In c (replace false r [32%N] s).
Proof.
  intros Hc H Hin. unfold replace in Hin.
  apply replace_go_incl in Hin; [|apply plain_space].
  simpl in Hin. intuition congruence.
Qed.

Lemma erase_dollars_out (s : jsstring) : ~ In 36%N (erase_dollars s).
Proof.
  unfold erase_dollars. intros H. apply filter_In in H. destruct H as [_ H].
  discriminate.
Qed.

Lemma erase_dollars_fixed (s : jsstring) :
  ~ In 36%N s -> erase_dollars s = s.
Proof.
  unfold erase_dollars. induction s as [|c r IH]; intros H; [reflexivity|].
  cbn [filter]. destruct (eqc c 36%N) eqn:E.
  - apply N.eqb_eq in E. subst c. simpl in H. tauto.
  - cbn. f_equal. apply IH. simpl in H. tauto.
Qed.

Lemma amp_to_space_out (s : jsstring) : ~ In 38%N (amp_to_space s).
Proof.
  unfold amp_to_space. intros H. apply in_map_iff in H.
  destruct H as (c & Hc & _). destruct (eqc c 38%N) eqn:E; [discriminate|].
  subst c. discriminate.
Qed.

Lemma amp_to_space_fixed (s : jsstring) :
  ~ In 38%N s -> amp_to_space s = s.
Proof.
  unfold amp_to_space. induction s as [|c r IH]; intros H; [reflexivity|].
  cbn [map]. destruct (eqc c 38%N) eqn:E.
  - apply N.eqb_eq in E. subst c. simpl in H. tauto.
  - f_equal. apply IH. simpl in H. tauto.
Qed.

(** What every cleaned string satisfies. *)
Lemma clean_normal (x : jsstring) :
  let y := clean x in
  ~ In 36%N y /\ ~ In 38%N y /\ nbb false y = true /\ wsn false y = true
  /\ trim y = y.
Proof.
  unfold clean. cbv zeta.
  set (s1 := replace false re_display (js "") (trim x)).
  set (s2 := replace false re_dollar (js "") s1).
  set (s3 := replace false re_begin (js "") s2).
  set (s4 := replace false re_end (js "") s3).
  set (s5 := replace false re_amp (js " ") s4).
  set (s6 := replace false re_linebreak (js " ") s5).
  set (s7 := replace false re_ws (js " ") s6).
  assert (E7 : s7 = collapse_from false s6)
    by (apply (proj1 (ws_stage_go s6 []))).
  repeat split.
  - intros H. apply trim_incl in H. revert H.
    apply replace_space_keeps_out; [discriminate|].
    apply replace_space_keeps_out; [discriminate|].
    apply replace_space_keeps_out; [discriminate|].
    apply replace_erase_keeps_out. apply replace_erase_keeps_out.
    unfold s2, replace. change (js "") with (@nil char).
    rewrite dollar_stage_go by lia. apply erase_dollars_out.
  - intros H. apply trim_incl in H. revert H.
    apply replace_space_keeps_out; [discriminate|].
    apply replace_space_keeps_out; [discriminate|].
    unfold s5, replace. change (js " ") with [32%N].
    rewrite amp_stage_go. apply amp_to_space_out.
  - unfold trim. apply trimEnd_nbb. apply (@trimStart_nbb _ false).
    rewrite E7. apply collapse_nbb.
    apply (proj1 (@linebreak_stage_nbb (List.length s5) s5 [] (Nat.le_refl _))).
  - unfold trim. apply trimEnd_wsn. apply (@trimStart_wsn _ false).
    rewrite E7. apply collapse_wsn.
  - apply trim_idem.
Qed.

(** ** The matcher only moves forward *)

Section MatcherFacts.

Variable R : Type.

Lemma star_greedy_inv (p : char -> bool) (a : jsstring) :
  forall b n (k : jsstring -> jsstring -> nat -> option R) res,
    star_greedy p b a n k = Some res ->
    exists b' a' n',
      k b' a' n' = Some res /\ n' + List.length a' = n + List.length a /\ n <= n'.
Proof.
  induction a as [|c rest IH]; intros b n k res H; simpl in H.
  - exists b, [], n. auto.
  - destruct (p c).
    + destruct (star_greedy p (c :: b) rest (S n) k) as [x|] eqn:E.
      * inversion H; subst x. apply IH in E.
        destruct E as (b' & a' & n' & Hk & Hl & Hn).
        exists b', a', n'. simpl. repeat split; [exact Hk|lia|lia].
      * exists b, (c :: rest), n. auto.
    + exists b, (c :: rest), n. auto.
Qed.

Lemma star_lazy_inv (p : char -> bool) (a : jsstring) :
  forall b n (k : jsstring -> jsstring -> nat -> option R) res,
    star_lazy p b a n k = Some res ->
    exists b' a' n',
      k b' a' n' = Some res /\ n' + List.length a' = n + List.length a /\ n <= n'.
Proof.
  induction a as [|c rest IH]; intros b n k res H; simpl in H.
  - destruct (k b [] n) as [x|] eqn:E; [|discriminate].
    exists b, [], n. rewrite E. auto.
  - destruct (k b (c :: rest) n) as [x|] eqn:E.
    + exists b, (c :: rest), n. rewrite E. auto.
    + destruct (p c); [|discriminate]. apply IH in H.
      destruct H as (b' & a' & n' & Hk & Hl & Hn).
      exists b', a', n'. simpl. repeat split; [exact Hk|lia|lia].
Qed.

Lemma further_trans (d1 d2 : nat) (s1 s2 s3 : mstate) :
  further d1 s1 s2 -> further d2 s2 s3 -> further (d1 + d2) s1 s3.
Proof. unfold further. lia. Qed.

Lemma further_weaken (d : nat) (s1 s2 : mstate) :
  further d s1 s2 -> further 0 s1 s2.
Proof. unfold further. lia. Qed.

Lemma further_refl (st : mstate) : further 0 st st.
Proof. unfold further. lia. Qed.

(** A successful match is a successful call of the continuation, at a
    position further in the text; strictly further for a pattern that
    cannot match the empty string. *)
Lemma m_inv (ic : bool) (r : regex) :
  forall st (k : mstate -> option R) res,
    m ic r st k = Some res ->
    exists st', k st' = Some res
                /\ further (if nonempty r then 1 else 0) st st'.
Proof.
  induction r as [ |c|p|r1 IH1 r2 IH2|r1 IH1 r2 IH2|r1 IH1|p|p|p|g r1 IH1| |p|p];
    intros st k res H; cbn [m nonempty] in *.
  - exists st. split; [exact H|apply further_refl].
  - destruct (after st) as [|x rest] eqn:Ea; [discriminate|].
    destruct (eqc (canon ic x) (canon ic c)); [|discriminate].
    eexists. split; [exact H|]. unfold further, advance. simpl. rewrite Ea. simpl. lia.
  - destruct (after st) as [|x rest] eqn:Ea; [discriminate|].
    destruct (p x); [|discriminate].
    eexists. split; [exact H|]. unfold further, advance. simpl. rewrite Ea. simpl. lia.
  - apply IH1 in H. destruct H as (s1 & H & F1).
    apply IH2 in H. destruct H as (s2 & H & F2).
    exists s2. split; [exact H|].
    pose proof (further_trans F1 F2) as F. revert F. unfold further.
    destruct (nonempty r1), (nonempty r2); simpl; lia.
  - destruct (m ic r1 st k) as [x|] eqn:E.
    + inversion H; subst x. apply IH1 in E. destruct E as (s1 & E & F).
      exists s1. split; [exact E|]. revert F. unfold further.
      destruct (nonempty r1), (nonempty r2); simpl; lia.
    + apply IH2 in H. destruct H as (s1 & E' & F).
      exists s1. split; [exact E'|]. revert F. unfold further.
      destruct (nonempty r1), (nonempty r2); simpl; lia.
  - match type of H with
    | match ?t with _ => _ end = _ => destruct t as [x|] eqn:E
    end.
    + inversion H; subst x. apply IH1 in E. destruct E as (s1 & E & F).
      destruct (Nat.eqb (mlen s1) (mlen st)); [discriminate|].
      exists s1. split; [exact E|]. apply (further_weaken F).
    + exists st. split; [exact H|apply further_refl].
  - apply star_greedy_inv in H. destruct H as (b' & a' & n' & Hk & Hl & Hn).
    eexists. split; [exact Hk|]. unfold further, at_pos. simpl. lia.
  - destruct (after st) as [|x rest] eqn:Ea; [discriminate|].
    destruct (p x); [|discriminate].
    apply star_greedy_inv in H. destruct H as (b' & a' & n' & Hk & Hl & Hn).
    eexists. split; [exact Hk|]. unfold further, at_pos. simpl. rewrite Ea. simpl. lia.
  - apply star_lazy_inv in H. destruct H as (b' & a' & n' & Hk & Hl & Hn).
    eexists. split; [exact Hk|]. unfold further, at_pos. simpl. lia.
  - apply IH1 in H. destruct H as (s1 & H & F).
    eexists. split; [exact H|]. revert F. unfold further. simpl. trivial.
  - destruct (xorb _ _); [|discriminate].
    exists st. split; [exact H|apply further_refl].
  - destruct (prev_is p st); [discriminate|].
    exists st. split; [exact H|apply further_refl].
  - destruct (next_is p st); [discriminate|].
    exists st. split; [exact H|apply further_refl].
Qed.

End MatcherFacts.

(** A match lies inside the text, and is not empty for a pattern that
    cannot match the empty string. *)
Lemma exec_at_bounds (ic : bool) (r : regex) (b a : jsstring) (st : mstate) :
  exec_at ic r b a = Some st ->
  mlen st <= List.length a /\ (nonempty r = true -> 1 <= mlen st).
Proof.
  unfold exec_at. intros H. apply m_inv in H.
  destruct H as (st' & H & F). inversion H; subst st'.
  unfold further in F. simpl in F. destruct (nonempty r); split; intros; lia.
Qed.

(** ** Lengths under replacement *)

Section ReplaceLength.

Variable ic : bool.
Variable r : regex.
Variable repl : jsstring.
Hypothesis r_nonempty : nonempty r = true.
Hypothesis repl_plain : plain r repl.
Hypothesis repl_short : List.length repl <= 1.

Lemma replace_go_length (a : jsstring) :
  forall b skip, skip <= List.length a ->
    List.length (replace_go ic r repl b a skip) + skip <= List.length a.
Proof.
  induction a as [|c rest IH]; intros b skip Hs.
  - simpl in Hs. assert (skip = 0) by lia. subst skip. simpl.
    destruct (exec_at ic r b []) as [st|] eqn:E; [|simpl; lia].
    apply exec_at_bounds in E. destruct E as [E1 E2].
    specialize (E2 r_nonempty). simpl in E1. lia.
  - destruct skip as [|k].
    + cbn [replace_go].
      destruct (exec_at ic r b (c :: rest)) as [st|] eqn:E.
      * apply exec_at_bounds in E. destruct E as [E1 E2].
        specialize (E2 r_nonempty). rewrite repl_plain, length_app.
        destruct (mlen st) as [|n]; [lia|].
        simpl in E1. specialize (IH (c :: b) n). simpl. lia.
      * specialize (IH (c :: b) 0). simpl. lia.
    + cbn [replace_go]. simpl in Hs. specialize (IH (c :: b) k). simpl. lia.
Qed.

Lemma replace_length (s : jsstring) :
  List.length (replace ic r repl s) <= List.length s.
Proof.
  unfold replace. pose proof (@replace_go_length s [] 0). lia.
Qed.

End ReplaceLength.

(** Erasing the matches of a pattern that matches somewhere shortens
    the text. *)
Lemma erase_go_shorter (ic : bool) (r : regex) (a : jsstring) :
  nonempty r = true ->
  forall b, test_from ic r b a = true ->
    List.length (replace_go ic r [] b a 0) < List.length a.
Proof.
  intros Hr. induction a as [|c rest IH]; intros b H; simpl in H.
  - destruct (exec_at ic r b []) as [st|] eqn:E; [|discriminate].
    apply exec_at_bounds in E. destruct E as [E1 E2].
    specialize (E2 Hr). simpl in E1. lia.
  - cbn [replace_go].
    destruct (exec_at ic r b (c :: rest)) as [st|] eqn:E.
    + apply exec_at_bounds in E. destruct E as [E1 E2]. specialize (E2 Hr).
      destruct (mlen st) as [|n]; [lia|]. simpl in E1. cbn [GetSubstitution app].
      pose proof (@replace_go_length ic r [] Hr (plain_empty r)
                    (Nat.le_0_l 1) rest (c :: b) n).
      simpl. lia.
    + specialize (IH (c :: b) H). simpl. lia.
Qed.

Lemma trimStart_length (s : jsstring) :
  List.length (trimStart s) <= List.length s.
Proof.
  induction s as [|c r IH]; simpl; [lia|].
  destruct (is_space c); simpl; lia.
Qed.

Lemma trimEnd_length (s : jsstring) :
  List.length (trimEnd s) <= List.length s.
Proof.
  induction s as [|c r IH]; [simpl; lia|].
  rewrite trimEnd_cons.
  destruct (match trimEnd r with [] => is_space c | _ => false end);
    simpl; lia.
Qed.

Lemma trim_length (s : jsstring) : List.length (trim s) <= List.length s.
Proof.
  unfold trim. pose proof (trimEnd_length (trimStart s)).
  pose proof (trimStart_length s). lia.
Qed.

(** ** Idempotence of clean *)

Local Open Scope string_scope.

(** C2, amended: cleaning a cleaned string changes nothing, provided
    the cleaned string holds no display-math delimiter and no
    environment wrapper.  The removals are single passes, each over the
    result of the one before, so a delimiter or wrapper can be put
    together from the two sides of a removed one; when none is, the
    second cleaning finds nothing to remove, because the first left no
    dollar sign, no ampersand, no doubled backslash, and only single
    inner spaces. *)
Theorem clean_idempotent_when_settled (x : jsstring) :
  test false re_display (clean x) = false ->
  test false re_begin (clean x) = false ->
  test false re_end (clean x) = false ->
  clean (clean x) = clean x.
Proof.
  intros H1 H3 H4.
  destruct (clean_normal x) as (Hd & Ha & Hb & Hw & Ht).
  cbv zeta in *. set (y := clean x) in *.
  unfold clean at 1. rewrite Ht.
  unfold test in *. unfold replace.
  rewrite (@replace_no_match false re_display (js "") y [] H1).
  change (js "") with (@nil char). change (js " ") with [32%N].
  rewrite dollar_stage_go by lia. rewrite erase_dollars_fixed by exact Hd.
  rewrite (@replace_no_match false re_begin [] y [] H3).
  rewrite (@replace_no_match false re_end [] y [] H4).
  rewrite amp_stage_go, amp_to_space_fixed by exact Ha.
  rewrite linebreak_fixed by exact Hb.
  rewrite (proj1 (ws_stage_go y [])), collapse_fixed by exact Hw.
  exact Ht.
Qed.

(** The amended C2 at an aligned display: the wrappers, dollars,
    ampersands and line breaks go in the first cleaning. *)
Lemma clean_idempotent_when_settled_witness :
  let x := js "  $$ \begin{align} a &= b \\ c &= d \end{align} $$ " in
  clean x = js "a = b c = d" /\ clean (clean x) = clean x.
Proof.
  split; [vm_compute; reflexivity|].
  apply clean_idempotent_when_settled; vm_compute; reflexivity.
Defined.

(** C2 as stated fails: removing the dollar sign of [\$[] leaves the
    display delimiter [\[], which a second cleaning removes. *)
Lemma clean_not_idempotent :
  clean (js "\$[") = js "\[" /\ clean (clean (js "\$[")) = js ""
  /\ clean (clean (js "\$[")) <> clean (js "\$[").
Proof.
  split; [vm_compute; reflexivity|].
  split; [vm_compute; reflexivity|].
  vm_compute. discriminate.
Qed.

(** The condition of the amended C2 is needed: where a delimiter or a
    wrapper is left in the cleaned string, the second cleaning removes
    it and returns a shorter string. *)
Lemma clean_shorter_when_unsettled (x : jsstring) :
  test false re_display (clean x) = true
  \/ test false re_begin (clean x) = true
  \/ test false re_end (clean x) = true ->
  List.length (clean (clean x)) < List.length (clean x).
Proof.
  intros H.
  destruct (clean_normal x) as (Hd & Ha & Hb & Hw & Ht).
  cbv zeta in *. set (y := clean x) in *.
  unfold clean at 1. rewrite Ht.
  set (s1 := replace false re_display (js "") y).
  set (s2 := replace false re_dollar (js "") s1).
  set (s3 := replace false re_begin (js "") s2).
  set (s4 := replace false re_end (js "") s3).
  set (s5 := replace false re_amp (js " ") s4).
  set (s6 := replace false re_linebreak (js " ") s5).
  set (s7 := replace false re_ws (js " ") s6).
  pose proof (trim_length s7) as L8.
  assert (L7 : List.length s7 <= List.length s6)
    by (apply replace_length; [reflexivity|apply plain_space|simpl; lia]).
  assert (L6 : List.length s6 <= List.length s5)
    by (apply replace_length; [reflexivity|apply plain_space|simpl; lia]).
  assert (L5 : List.length s5 <= List.length s4)
    by (apply replace_length; [reflexivity|apply plain_space|simpl; lia]).
  assert (L4 : List.length s4 <= List.length s3)
    by (apply replace_length; [reflexivity|apply plain_empty|simpl; lia]).
  assert (L3 : List.length s3 <= List.length s2)
    by (apply replace_length; [reflexivity|apply plain_empty|simpl; lia]).
  assert (L2 : List.length s2 <= List.length s1)
    by (apply replace_length; [reflexivity|apply plain_empty|simpl; lia]).
  assert (L1 : List.length s1 <= List.length y)
    by (apply replace_length; [reflexivity|apply plain_empty|simpl; lia]).
  destruct (test false re_display y) eqn:T1.
  { assert (List.length s1 < List.length y)
      by (apply erase_go_shorter; [reflexivity|exact T1]).
    lia. }
  assert (E1 : s1 = y) by (apply replace_no_match; exact T1).
  assert (E2 : s2 = y).
  { unfold s2. rewrite E1. unfold replace. change (js "") with (@nil char).
    rewrite dollar_stage_go by lia. apply erase_dollars_fixed, Hd. }
  destruct (test false re_begin y) eqn:T3.
  { assert (List.length s3 < List.length y).
    { unfold s3. rewrite E2. apply erase_go_shorter; [reflexivity|exact T3]. }
    lia. }
  assert (E3 : s3 = y) by (unfold s3; rewrite E2; apply replace_no_match; exact T3).
  assert (T4 : test false re_end y = true) by intuition discriminate.
  assert (List.length s4 < List.length y).
  { unfold s4. rewrite E3. apply erase_go_shorter; [reflexivity|exact T4]. }
  lia.
Qed.

(** ** Complexity *)

Lemma countNesting_go_ge (chars : list N) :
  forall maxDepth currentDepth,
    (maxDepth <= countNesting_go chars maxDepth currentDepth)%Z.
Proof.
  induction chars as [|c rest IH]; intros mx cur; simpl; [lia|].
  destruct (eqc c (char_of "{")).
  - specialize (IH (Z.max mx (cur + 1)) (cur + 1))%Z. lia.
  - destruct (eqc c (char_of "}")); apply IH.
Qed.

Lemma countNesting_nonneg (s : jsstring) : (0 <= countNesting s)%Z.
Proof. apply countNesting_go_ge. Qed.

(** The four factors are capped at 3, 2, 2 and 2 over a base of 1, so
    the sum itself never leaves the range. *)
Lemma rawComplexity_range (s : jsstring) : (1 <= rawComplexity s <= 10)%Z.
Proof.
  unfold rawComplexity.
  pose proof (countNesting_nonneg s) as Hd.
  pose proof (Zle_0_nat (List.length s)) as Hl.
  pose proof (Zle_0_nat (List.length (or_empty (str_match false re_ops s)))) as Ho.
  assert (Hq : (0 <= Z.of_nat (List.length s) / 50)%Z)
    by (apply Z.div_pos; lia).
  destruct (test false re_matrix s); lia.
Qed.

(** C3: the complexity score is an integer from 1 to 10, as computed by
    estimateComplexity on any string and as stored in
    structure.complexity by parse on any input; for the empty string it
    is 1. *)
Theorem complexity_in_range :
  (forall s, 1 <= estimateComplexity s <= 10)%Z
  /\ estimateComplexity (js "") = 1%Z
  /\ (forall s n, exists r n',
         parse s n = Ok (r, n')
         /\ complexity (structure r) = estimateComplexity (cleaned r)
         /\ (1 <= complexity (structure r) <= 10)%Z)
  /\ (exists r n',
         parse (js "") 0 = Ok (r, n') /\ complexity (structure r) = 1%Z).
Proof.
  assert (R : forall s, (1 <= estimateComplexity s <= 10)%Z).
  { intros s. unfold estimateComplexity.
    pose proof (rawComplexity_range s). lia. }
  split; [exact R|].
  split; [vm_compute; reflexivity|].
  split.
  - intros s n. destruct (parse_ok s n) as (x & vs & n' & H).
    eexists. eexists. split; [exact H|]. simpl. split; [reflexivity|apply R].
  - eexists. eexists. split; vm_compute; reflexivity.
Qed.

(** ** Totality *)

(** The norm pattern is a disjunction of four; the third alternative is
    empty and so matches at the start of any string. *)
Lemma re_norm_always (s : jsstring) : test false re_norm s = true.
Proof.
  unfold test. destruct s as [|c rest]; cbn [test_from].
  - vm_compute. reflexivity.
  - unfold exec_at, re_norm. cbn [alts]. cbn [m].
    match goal with
    | |- match match ?a with _ => _ end with _ => _ end = _ => destruct a
    end; [reflexivity|].
    match goal with
    | |- match match ?a with _ => _ end with _ => _ end = _ => destruct a
    end; reflexivity.
Qed.

Lemma present_In {A : Type} (f : string * A -> bool) (table : list (string * A))
      (e : string * A) :
  In e table -> f e = true -> In (fst e) (map fst (filter f table)).
Proof.
  intros Hin Hf. apply in_map. apply filter_In. split; assumption.
Qed.

Lemma extractFunctions_norm (s : jsstring) : In "norm" (extractFunctions s).
Proof.
  unfold extractFunctions.
  apply (present_In (fun e => test (fst (snd e)) (snd (snd e)) s)
                    funcPatterns ("norm", (false, re_norm))).
  - unfold funcPatterns. simpl. tauto.
  - apply re_norm_always.
Qed.

(** C8 fails on the code in one field.  parse does return a record for
    every input string: every pattern source built from the symbol
    table compiles, the possibly-null match results are guarded, and
    every step terminates.  But the functions field never degrades to
    the empty list: it is non-empty for every input.  On the empty
    string every other field is empty or at its default (no variables,
    no operators, every flag off, the default type, the base score),
    while functions is the one-element list holding norm. *)
Theorem parse_total_functions_never_empty :
  (forall s n, exists r n',
      parse s n = Ok (r, n') /\ original r = s /\ cleaned r = clean s
      /\ functions r <> [])
  /\ (exists r n',
         parse (js "") 0 = Ok (r, n')
         /\ cleaned r = js "" /\ readable r = js ""
         /\ variables r = [] /\ operators r = []
         /\ functions r = ["norm"]
         /\ functions r <> []
         /\ structure r = MkStructure false false false false false false
                                      false 1 "general").
Proof.
  split.
  - intros s n. destruct (parse_ok s n) as (x & vs & n' & H).
    eexists. eexists. split; [exact H|]. simpl.
    split; [reflexivity|]. split; [reflexivity|].
    intros E. pose proof (extractFunctions_norm (clean s)) as Hin.
    rewrite E in Hin. exact Hin.
  - eexists. eexists. split; [vm_compute; reflexivity|].
    repeat split. discriminate.
Qed.

(** ** The readable form *)

(** C10: the readable field holds no brace.  The last replacement of
    toReadable erases both braces and the trim after it only drops
    characters. *)
Theorem readable_brace_free :
  forall s n, exists r n', parse s n = Ok (r, n') /\ brace_free (readable r).
Proof.
  intros s n. destruct (parse_ok s n) as (x & vs & n' & H).
  eexists. eexists. split; [exact H|]. simpl.
  unfold replace, re_braces. change (js "") with (@nil char).
  rewrite replace_class_erase.
  split; intros Hin; apply trim_incl, filter_In in Hin;
    destruct Hin as [_ Hin]; vm_compute in Hin; discriminate.
Qed.

(** C9: for the input [\alpha + \beta = \gamma], readable is the three
    glyphs joined as in the input, structure.isEquation is true, and
    the variables are the entries for alpha, beta and gamma, each of
    kind greek (the field the code calls type). *)
Theorem parse_alpha_beta_gamma :
  exists r n,
    parse (js "\alpha + \beta = \gamma") 0 = Ok (r, n)
    /\ readable r = js "α + β = γ"
    /\ isEquation (structure r) = true
    /\ map (fun v => (symbol v, latex v, type v)) (variables r)
       = [ (js "α", js "\alpha", "greek");
           (js "β", js "\beta", "greek");
           (js "γ", js "\gamma", "greek") ].
Proof.
  eexists. eexists. split; [vm_compute; reflexivity|].
  repeat split.
Qed.

(** ** The matrix test inside parse *)

Lemma class_pbvBV_not_brace (c : char) :
  oneof "pbvBV" c = true -> noneof "}" c = true.
Proof.
  unfold noneof. intros H.
  destruct (oneof "}" c) eqn:E; [|reflexivity].
  unfold oneof in E. change (js "}") with [125%N] in E. simpl in E.
  rewrite orb_false_r in E. apply N.eqb_eq in E. subst c. discriminate.
Qed.

Lemma exec_matrix_shape (b a : jsstring) :
  exec_at false re_matrix b a <> None ->
  exists rest,
    a = (js "\begin{matrix}" ++ rest)%list
    \/ exists c, oneof "pbvBV" c = true
                 /\ a = (js "\begin{" ++ c :: js "matrix}" ++ rest)%list.
Proof.
  unfold exec_at, re_matrix, seq. cbn [fold_right].
  intros H. norm_lit. run_matcher.
  do 7 eat H.
  destruct a as [|c a]; [exfalso; apply H; reflexivity|].
  destruct (oneof "pbvBV" c) eqn:Ec.
  - destruct (eqc c 109%N) eqn:E.
    { apply N.eqb_eq in E. subst c. discriminate. }
    do 7 eat H. exists a. right. exists c. split; [exact Ec|reflexivity].
  - eat_char H. do 6 eat H. exists a. left. reflexivity.
Qed.

Lemma exec_matrix_begin (b a : jsstring) :
  exec_at false re_matrix b a <> None -> exec_at false re_begin b a <> None.
Proof.
  intros H. apply exec_matrix_shape in H.
  destruct H as [rest [H|(c & Hc & H)]]; subst a.
  - vm_compute. discriminate.
  - apply class_pbvBV_not_brace in Hc.
    unfold exec_at, re_begin, seq. cbn [fold_right]. norm_lit.
    change (js "\begin{") with [92; 98; 101; 103; 105; 110; 123]%N.
    change (js "matrix}") with [109; 97; 116; 114; 105; 120; 125]%N.
    cbn [app]. run_matcher. rewrite Hc.
    vm_compute. discriminate.
Qed.

Lemma test_matrix_begin (a : jsstring) :
  forall b, test_from false re_matrix b a = true ->
            test_from false re_begin b a = true.
Proof.
  induction a as [|c rest IH]; intros b H; cbn [test_from] in *.
  - destruct (exec_at false re_matrix b []) eqn:E; [|discriminate].
    destruct (exec_at false re_begin b []) eqn:E'; [reflexivity|].
    exfalso. apply (@exec_matrix_begin b []); congruence.
  - destruct (exec_at false re_matrix b (c :: rest)) eqn:E.
    + destruct (exec_at false re_begin b (c :: rest)) eqn:E'; [reflexivity|].
      exfalso. apply (@exec_matrix_begin b (c :: rest)); congruence.
    + destruct (exec_at false re_begin b (c :: rest)); [reflexivity|].
      apply IH, H.
Qed.

(** Inside parse the matrix flag is raised only for an input whose
    cleaned form still holds a [\begin{...}], that is, one on which
    clean is not idempotent. *)
Lemma hasMatrix_only_when_unsettled (x : jsstring) :
  hasMatrix (analyzeStructure (clean x)) = true ->
  test false re_begin (clean x) = true
  /\ clean (clean x) <> clean x.
Proof.
  intros H. simpl in H. apply test_matrix_begin in H.
  split; [exact H|].
  intros E.
  pose proof (clean_shorter_when_unsettled x (or_intror (or_introl H))) as L.
  rewrite E in L. lia.
Qed.

(** ** The points where the code departs from its description *)

(** C7 fails on the code: the functions list carries the norm tag for
    every input, with or without vertical bars; the input [\alpha] has
    none and is tagged. *)
Theorem norm_tagged_without_bars :
  (forall s n, exists r n', parse s n = Ok (r, n') /\ In "norm" (functions r))
  /\ ~ In (char_of "|") (js "\alpha")
  /\ (exists r n, parse (js "\alpha") 0 = Ok (r, n) /\ functions r = ["norm"])
  /\ (exists r n, parse (js "") 0 = Ok (r, n) /\ functions r = ["norm"]).
Proof.
  split.
  - intros s n. destruct (parse_ok s n) as (x & vs & n' & H).
    eexists. eexists. split; [exact H|]. simpl. apply extractFunctions_norm.
  - split; [vm_compute; intuition discriminate|].
    split; eexists; eexists; (split; [vm_compute; reflexivity|reflexivity]).
Qed.

(** C1 fails on the code: clean removes every [\begin{...}] before the
    structure is analysed, so the matrix test, which does find the
    marker in the raw text, never sees it in parse: no flag, no matrix
    type, nothing added to the sum.  In parse the flag is raised only
    where the cleaning itself has put a wrapper together, that is, on
    inputs where clean is not idempotent. *)
Theorem matrix_marker_lost_in_parse :
  (let input := js "\begin{pmatrix} a & b \\ c & d \end{pmatrix}" in
   test false re_matrix input = true
   /\ hasMatrix (analyzeStructure input) = true
   /\ rawComplexity input = 4%Z
   /\ exists r n,
        parse input 0 = Ok (r, n)
        /\ cleaned r = js "a b c d"
        /\ hasMatrix (structure r) = false
        /\ eqtype (structure r) = "general"
        /\ rawComplexity (cleaned r) = 1%Z
        /\ complexity (structure r) = 1%Z)
  /\ (forall x n, exists r n',
         parse x n = Ok (r, n')
         /\ (hasMatrix (structure r) = true -> clean (clean x) <> clean x)).
Proof.
  split.
  - cbv zeta.
    split; [vm_compute; reflexivity|].
    split; [vm_compute; reflexivity|].
    split; [vm_compute; reflexivity|].
    eexists. eexists. split; [vm_compute; reflexivity|].
    repeat split.
  - intros x n. destruct (parse_ok x n) as (y & vs & n' & H).
    eexists. eexists. split; [exact H|]. cbn [structure].
    intros Hm. apply (hasMatrix_only_when_unsettled x Hm).
Qed.

(** C4 fails on the code: the table is applied entry by entry as plain
    text replacement, and [\cdot] comes before [\cdots], so [\cdots] is
    rendered as the glyph of [\cdot] followed by the letter s.  Every
    other command of the table, given alone, is rendered as its own
    glyph. *)
Theorem cdots_cross_substituted :
  toReadable (js "\cdots") = Ok (js "·s")
  /\ In (js "\cdots", js "⋯") symbolMap
  /\ (exists r n, parse (js "\cdots") 0 = Ok (r, n) /\ readable r = js "·s")
  /\ Forall (fun e => fst e <> js "\cdots" -> toReadable (fst e) = Ok (snd e))
            symbolMap.
Proof.
  split; [vm_compute; reflexivity|].
  split; [vm_compute; tauto|].
  split; [eexists; eexists; split; vm_compute; reflexivity|].
  unfold symbolMap. cbn [map].
  repeat (constructor;
          [first [ intros _; vm_compute; reflexivity
                 | intros H; exfalso; apply H; vm_compute; reflexivity ]|]).
  constructor.
Qed.

(** C5 fails on the code: the operators list reports [\mathbb{P}] as a
    probability operator, but the type rule looks only for
    [\mathbb{E}] and [\Pr]; with no loss or gradient marker around,
    the type falls through to general. *)
Theorem probability_operator_not_classified :
  exists r n,
    parse (js "\mathbb{P}(A)") 0 = Ok (r, n)
    /\ operators r = ["probability"]
    /\ hasSummation (structure r) = false
    /\ includes (cleaned r) (js "\nabla") = false
    /\ includes (cleaned r) (js "\partial") = false
    /\ eqtype (structure r) = "general".
Proof.
  eexists. eexists. split; [vm_compute; reflexivity|].
  repeat split.
Qed.

(** C6 fails on the code: the Set holds objects, each object literal is
    a new object, and so the two occurrences of x are two entries. *)
Theorem same_symbol_listed_twice :
  exists r n,
    parse (js "x + x") 0 = Ok (r, n)
    /\ map symbol (variables r) = [js "x"; js "x"]
    /\ map oid (variables r) = [0; 1]
    /\ ~ NoDup (map symbol (variables r)).
Proof.
  eexists. eexists. split; [vm_compute; reflexivity|].
  split; [reflexivity|]. split; [reflexivity|].
  simpl. intros H. inversion H as [|? ? Hn _]. apply Hn. simpl. tauto.
Qed.

(** * Further properties of the parser *)

Local Open Scope list_scope.

(** ** The cleaned string *)

Lemma includes_cons (s sub : jsstring) (c : char) :
  includes (c :: s) sub = starts_with sub (c :: s) || includes s sub.
Proof. reflexivity. Qed.

Lemma nbb_no_pair (s : jsstring) :
  forall pb, nbb pb s = true -> includes s [92%N; 92%N] = false.
Proof.
  induction s as [|c r IH]; intros pb H; [reflexivity|].
  rewrite includes_cons. cbn [nbb] in H.
  destruct (eqc c 92%N) eqn:Ec.
  - apply andb_prop in H. destruct H as [_ H].
    rewrite (IH true H), orb_false_r.
    cbn [starts_with]. destruct (eqc 92%N c); [|reflexivity]. cbn [andb].
    destruct r as [|d r']; [reflexivity|].
    cbn [nbb] in H. destruct (eqc d 92%N) eqn:Ed; [discriminate|].
    unfold eqc in *. rewrite N.eqb_sym, Ed. reflexivity.
  - rewrite (IH false H), orb_false_r. cbn [starts_with].
    unfold eqc in *. rewrite N.eqb_sym, Ec. reflexivity.
Qed.

Lemma wsn_spaces (s : jsstring) :
  forall ps, wsn ps s = true ->
    (forall c, In c s -> is_space c = true -> c = 32%N)
    /\ includes s [32%N; 32%N] = false.
Proof.
  induction s as [|c r IH]; intros ps H.
  - split; [intros c []|reflexivity].
  - cbn [wsn] in H. rewrite includes_cons.
    destruct (is_space c) eqn:Ec.
    + apply andb_prop in H. destruct H as [H H3].
      apply andb_prop in H. destruct H as [H1 _].
      apply N.eqb_eq in H1. subst c.
      destruct (IH true H3) as [A B]. split.
      * intros c [<-|Hin] Hc; [reflexivity|apply A; assumption].
      * rewrite B, orb_false_r. cbn [starts_with].
        destruct r as [|d r']; [reflexivity|].
        cbn [wsn] in H3. destruct (eqc 32%N d) eqn:Ed; [|reflexivity].
        apply N.eqb_eq in Ed. subst d. discriminate.
    + destruct (IH false H) as [A B]. split.
      * intros x [<-|Hin] Hx; [congruence|apply A; assumption].
      * rewrite B, orb_false_r. cbn [starts_with].
        destruct (eqc 32%N c) eqn:E; [|reflexivity].
        apply N.eqb_eq in E. subst c. discriminate.
Qed.

(** X1: whatever the input, the cleaned string holds no dollar sign, no
    ampersand and no doubled backslash; its only whitespace characters
    are single spaces, never two in a row, and none at either end. *)
Theorem clean_output_normal (x : jsstring) :
  ~ In (char_of "$") (clean x)
  /\ ~ In (char_of "&") (clean x)
  /\ includes (clean x) (js "\\") = false
  /\ (forall c, In c (clean x) -> is_space c = true -> c = char_of " ")
  /\ includes (clean x) (js "  ") = false
  /\ trim (clean x) = clean x.
Proof.
  destruct (clean_normal x) as (Hd & Ha & Hb & Hw & Ht). cbv zeta in *.
  destruct (wsn_spaces _ _ Hw) as [W1 W2].
  repeat split; try assumption.
  apply (nbb_no_pair _ _ Hb).
Qed.

(** X2: cleaning never makes a string longer. *)
Theorem clean_never_longer (x : jsstring) :
  List.length (clean x) <= List.length x.
Proof.
  unfold clean.
  set (s0 := trim x).
  set (s1 := replace false re_display (js "") s0).
  set (s2 := replace false re_dollar (js "") s1).
  set (s3 := replace false re_begin (js "") s2).
  set (s4 := replace false re_end (js "") s3).
  set (s5 := replace false re_amp (js " ") s4).
  set (s6 := replace false re_linebreak (js " ") s5).
  set (s7 := replace false re_ws (js " ") s6).
  pose proof (trim_length s7) as L8.
  pose proof (trim_length x) as L0. fold s0 in L0.
  assert (L7 : List.length s7 <= List.length s6)
    by (apply replace_length; [reflexivity|apply plain_space|simpl; lia]).
  assert (L6 : List.length s6 <= List.length s5)
    by (apply replace_length; [reflexivity|apply plain_space|simpl; lia]).
  assert (L5 : List.length s5 <= List.length s4)
    by (apply replace_length; [reflexivity|apply plain_space|simpl; lia]).
  assert (L4 : List.length s4 <= List.length s3)
    by (apply replace_length; [reflexivity|apply plain_empty|simpl; lia]).
  assert (L3 : List.length s3 <= List.length s2)
    by (apply replace_length; [reflexivity|apply plain_empty|simpl; lia]).
  assert (L2 : List.length s2 <= List.length s1)
    by (apply replace_length; [reflexivity|apply plain_empty|simpl; lia]).
  assert (L1 : List.length s1 <= List.length s0)
    by (apply replace_length; [reflexivity|apply plain_empty|simpl; lia]).
  lia.
Qed.

(** ** Fixed points of clean *)

Lemma clean_fixed_of_normal (y : jsstring) :
  trim y = y -> ~ In 36%N y -> ~ In 38%N y ->
  nbb false y = true -> wsn false y = true ->
  test false re_display y = false ->
  test false re_begin y = false ->
  test false re_end y = false ->
  clean y = y.
Proof.
  intros Ht Hd Ha Hb Hw H1 H3 H4.
  unfold clean. rewrite Ht. unfold test in *. unfold replace.
  rewrite (@replace_no_match false re_display (js "") y [] H1).
  change (js "") with (@nil char). change (js " ") with [32%N].
  rewrite dollar_stage_go by lia. rewrite erase_dollars_fixed by exact Hd.
  rewrite (@replace_no_match false re_begin [] y [] H3).
  rewrite (@replace_no_match false re_end [] y [] H4).
  rewrite amp_stage_go, amp_to_space_fixed by exact Ha.
  rewrite linebreak_fixed by exact Hb.
  rewrite (proj1 (ws_stage_go y [])), collapse_fixed by exact Hw.
  exact Ht.
Qed.

Lemma no_pair_nbb (s : jsstring) :
  includes s [92%N; 92%N] = false -> nbb false s = true.
Proof.
  induction s as [|c r IH]; intros H; [reflexivity|].
  rewrite includes_cons in H. apply orb_false_elim in H. destruct H as [H1 H2].
  specialize (IH H2). cbn [nbb]. destruct (eqc c 92%N) eqn:Ec; [|exact IH].
  apply N.eqb_eq in Ec. subst c. cbn [negb andb].
  destruct r as [|d r']; [reflexivity|].
  cbn [starts_with] in H1. change (eqc 92%N 92%N) with true in H1.
  cbn [andb] in H1. rewrite andb_true_r in H1.
  cbn [nbb] in *. unfold eqc in *. rewrite N.eqb_sym in H1. rewrite H1 in *.
  exact IH.
Qed.

Lemma spaces_wsn (s : jsstring) :
  (forall c, In c s -> is_space c = true -> c = 32%N) ->
  includes s [32%N; 32%N] = false ->
  wsn false s = true
  /\ (match s with c :: _ => is_space c = false | [] => True end ->
      wsn true s = true).
Proof.
  induction s as [|c r IH]; intros A B; [split; reflexivity|].
  rewrite includes_cons in B. apply orb_false_elim in B. destruct B as [B1 B2].
  destruct IH as [IH1 IH2]; [intros x Hx; apply A; right; exact Hx|exact B2|].
  cbn [wsn]. destruct (is_space c) eqn:Ec.
  - assert (c = 32%N) by (apply A; [left; reflexivity|exact Ec]). subst c.
    split; [|intros; discriminate].
    cbn. apply IH2. destruct r as [|d r']; [exact I|].
    cbn [starts_with] in B1. cbn in B1.
    destruct (is_space d) eqn:Ed; [|reflexivity].
    assert (d = 32%N) by (apply A; [right; left; reflexivity|exact Ed]).
    subst d. discriminate.
  - split; intros; exact IH1.
Qed.

(** Each of the three patterns starts with a backslash. *)
Lemma backslash_needed (r : regex) (a : jsstring) :
  (forall b x rest, eqc x 92%N = false -> exec_at false r b (x :: rest) = None) ->
  (forall b, exec_at false r b [] = None) ->
  ~ In 92%N a -> forall b, test_from false r b a = false.
Proof.
  intros Hx He. induction a as [|c rest IH]; intros Hn b; cbn [test_from].
  - rewrite He. reflexivity.
  - rewrite Hx.
    + apply IH. intros Hin. apply Hn. right. exact Hin.
    + destruct (eqc c 92%N) eqn:E; [|reflexivity].
      apply N.eqb_eq in E. subst c. exfalso. apply Hn. left. reflexivity.
Qed.

Lemma display_needs_backslash (a : jsstring) :
  ~ In 92%N a -> forall b, test_from false re_display b a = false.
Proof.
  apply backslash_needed.
  - intros b x rest E. unfold exec_at, re_display. norm_lit. run_matcher.
    rewrite E. reflexivity.
  - intros b. reflexivity.
Qed.

Lemma begin_needs_backslash (a : jsstring) :
  ~ In 92%N a -> forall b, test_from false re_begin b a = false.
Proof.
  apply backslash_needed.
  - intros b x rest E. unfold exec_at, re_begin, seq. cbn [fold_right].
    norm_lit. run_matcher. rewrite E. reflexivity.
  - intros b. reflexivity.
Qed.

Lemma end_needs_backslash (a : jsstring) :
  ~ In 92%N a -> forall b, test_from false re_end b a = false.
Proof.
  apply backslash_needed.
  - intros b x rest E. unfold exec_at, re_end, seq. cbn [fold_right].
    norm_lit. run_matcher. rewrite E. reflexivity.
  - intros b. reflexivity.
Qed.

Lemma dollar_needs_dollar (a : jsstring) :
  ~ In 36%N a -> forall b, test_from false re_dollar b a = false.
Proof.
  induction a as [|c rest IH]; intros Hn b; cbn [test_from].
  - reflexivity.
  - unfold exec_at. rewrite re_dollar_eq. run_matcher.
    destruct (eqc c 36%N) eqn:E.
    + apply N.eqb_eq in E. subst c. exfalso. apply Hn. left. reflexivity.
    + apply IH. intros Hin. apply Hn. right. exact Hin.
Qed.

Lemma clean_keeps_out (x : jsstring) (c : char) :
  c <> 32%N -> ~ In c x -> ~ In c (clean x).
Proof.
  intros Hc Hx. unfold clean. intros H. apply trim_incl in H. revert H.
  do 3 (apply replace_space_keeps_out; [exact Hc|]).
  do 4 apply replace_erase_keeps_out.
  intros H. apply trim_incl in H. exact (Hx H).
Qed.

(** X3: the strings clean leaves as they are.  A string is a fixed
    point of clean exactly when no stage has anything to do on it: it
    is trimmed, holds no dollar sign, ampersand or doubled backslash,
    its whitespace is single spaces, and it holds no display-math
    delimiter and no environment wrapper. *)
Theorem clean_fixed_points (x : jsstring) :
  clean x = x
  <-> (trim x = x
       /\ ~ In (char_of "$") x /\ ~ In (char_of "&") x
       /\ includes x (js "\\") = false
       /\ (forall c, In c x -> is_space c = true -> c = char_of " ")
       /\ includes x (js "  ") = false
       /\ test false re_display x = false
       /\ test false re_begin x = false
       /\ test false re_end x = false).
Proof.
  split.
  - intros E.
    destruct (clean_output_normal x) as (A1 & A2 & A3 & A4 & A5 & A6).
    assert (S : forall r, In r [re_display; re_begin; re_end] ->
                          test false r (clean x) = false).
    { intros r Hr. destruct (test false r (clean x)) eqn:T; [|reflexivity].
      exfalso.
      assert (L : List.length (clean (clean x)) < List.length (clean x)).
      { apply clean_shorter_when_unsettled.
        simpl in Hr. destruct Hr as [<-|[<-|[<-|[]]]]; auto. }
      rewrite E in L. rewrite E in L. lia. }
    pose proof (S re_display (or_introl eq_refl)) as S1.
    pose proof (S re_begin (or_intror (or_introl eq_refl))) as S2.
    pose proof (S re_end (or_intror (or_intror (or_introl eq_refl)))) as S3.
    rewrite E in *. repeat split; assumption.
  - intros (Ht & Hd & Ha & Hb & Hw1 & Hw2 & H1 & H3 & H4).
    apply clean_fixed_of_normal; try assumption.
    + apply no_pair_nbb. exact Hb.
    + apply (proj1 (spaces_wsn x Hw1 Hw2)).
Qed.

(** X4: on an input without a backslash, cleaning twice is cleaning
    once. *)
Theorem clean_idempotent_without_backslash (x : jsstring) :
  ~ In (char_of "\") x -> clean (clean x) = clean x.
Proof.
  intros Hx.
  assert (Hy : ~ In 92%N (clean x))
    by (apply clean_keeps_out; [discriminate|exact Hx]).
  destruct (clean_normal x) as (Hd & Ha & Hb & Hw & Ht). cbv zeta in *.
  apply clean_fixed_of_normal; try assumption.
  - apply display_needs_backslash, Hy.
  - apply begin_needs_backslash, Hy.
  - apply end_needs_backslash, Hy.
Qed.

Lemma clean_idempotent_without_backslash_witness :
  let x := js "  $x$ &  y = 2 $$ " in
  clean x = js "x y = 2" /\ clean (clean x) = clean x.
Proof.
  split; [vm_compute; reflexivity|].
  apply clean_idempotent_without_backslash.
  vm_compute. intuition discriminate.
Defined.

(** ** The complexity score and the nesting count *)


Lemma countNesting_go_shift (chars : list N) (d : Z) :
  forall mx cur,
    countNesting_go chars (mx + d) (cur + d) = (countNesting_go chars mx cur + d)%Z.
Proof.
  induction chars as [|c rest IH]; intros mx cur; simpl; [reflexivity|].
  destruct (eqc c (char_of "{")).
  - rewrite <- IH. f_equal; lia.
  - destruct (eqc c (char_of "}")); [|apply IH].
    rewrite <- IH. f_equal; lia.
Qed.

Lemma countNesting_go_max (chars : list N) :
  forall a mx cur,
    countNesting_go chars (Z.max a mx) cur = Z.max a (countNesting_go chars mx cur).
Proof.
  induction chars as [|c rest IH]; intros a mx cur; simpl; [reflexivity|].
  destruct (eqc c (char_of "{")).
  - rewrite <- IH. f_equal. lia.
  - destruct (eqc c (char_of "}")); apply IH.
Qed.

Lemma code_points_cons (c : char) (s : jsstring) :
  is_high c = false -> code_points (c :: s) = c :: code_points s.
Proof.
  intros H. destruct s as [|l r]; [reflexivity|].
  cbn [code_points]. rewrite H. reflexivity.
Qed.

Lemma code_points_repeat (c : char) (k : nat) (s : jsstring) :
  is_high c = false ->
  code_points (repeat c k ++ s) = (repeat c k ++ code_points s)%list.
Proof.
  intros H. induction k as [|k IH]; [reflexivity|].
  cbn [repeat app]. rewrite code_points_cons by exact H. rewrite IH. reflexivity.
Qed.

Lemma countNesting_go_closers (k : nat) (chars : list N) :
  forall mx cur,
    countNesting_go (repeat (char_of "}") k ++ chars) mx cur
    = countNesting_go chars mx (cur - Z.of_nat k).
Proof.
  induction k as [|k IH]; intros mx cur.
  - simpl. f_equal. lia.
  - cbn [repeat app countNesting_go].
    change (eqc (char_of "}") (char_of "{")) with false.
    change (eqc (char_of "}") (char_of "}")) with true. cbn iota.
    rewrite IH. f_equal. lia.
Qed.

Lemma countNesting_go_openers (n : nat) (chars : list N) :
  forall cur,
    countNesting_go (repeat (char_of "{") n ++ chars) cur cur
    = countNesting_go chars (cur + Z.of_nat n) (cur + Z.of_nat n).
Proof.
  induction n as [|n IH]; intros cur.
  - simpl. f_equal; lia.
  - cbn [repeat app countNesting_go].
    change (eqc (char_of "{") (char_of "{")) with true. cbn iota zeta.
    replace (Z.max cur (cur + 1)) with (cur + 1)%Z by lia.
    rewrite IH. f_equal; lia.
Qed.

(** X6: closing braces ahead of the text lower the running depth below
    zero, so each of them cancels one level of the nesting that
    follows: k closing braces followed by s count as the depth of s
    less k, or zero. *)
Theorem countNesting_leading_closers (k : nat) (s : jsstring) :
  countNesting (repeat (char_of "}") k ++ s)
  = Z.max 0 (countNesting s - Z.of_nat k).
Proof.
  unfold countNesting.
  rewrite code_points_repeat by reflexivity.
  rewrite countNesting_go_closers.
  replace 0%Z with (Z.max 0 (0 - Z.of_nat k)) at 1 by lia.
  rewrite countNesting_go_max. f_equal.
  replace (0 - Z.of_nat k)%Z with (0 + - Z.of_nat k)%Z by lia.
  rewrite countNesting_go_shift. lia.
Qed.

(** X7: opening braces ahead of the text add their number to its
    depth. *)
Theorem countNesting_leading_openers (n : nat) (s : jsstring) :
  countNesting (repeat (char_of "{") n ++ s) = (Z.of_nat n + countNesting s)%Z.
Proof.
  unfold countNesting.
  rewrite code_points_repeat by reflexivity.
  rewrite countNesting_go_openers, countNesting_go_shift. lia.
Qed.

Lemma countNesting_go_le (chars : list N) :
  forall mx cur,
    (countNesting_go chars mx cur
     <= Z.max mx (cur + Z.of_nat (occurrences (char_of "{") chars)))%Z.
Proof.
  induction chars as [|c rest IH]; intros mx cur; [simpl; lia|].
  cbn [countNesting_go]. unfold occurrences in *. cbn [filter].
  unfold eqc in *. rewrite (N.eqb_sym (char_of "{") c).
  destruct (c =? char_of "{")%N.
  - specialize (IH (Z.max mx (cur + 1)) (cur + 1))%Z. cbn [List.length]. lia.
  - destruct (c =? char_of "}")%N.
    + specialize (IH mx (cur - 1))%Z. lia.
    + specialize (IH mx cur). lia.
Qed.

Lemma code_points_occurrences (n : nat) :
  forall s, List.length s <= n ->
    occurrences (char_of "{") (code_points s) = occurrences (char_of "{") s.
Proof.
  induction n as [|n IH]; intros s Hn.
  - destruct s; [reflexivity|simpl in Hn; lia].
  - destruct s as [|h r]; [reflexivity|].
    destruct r as [|l r']; [reflexivity|].
    cbn [code_points]. simpl in Hn.
    destruct (is_high h && is_low l) eqn:E.
    + apply andb_prop in E. destruct E as [Eh El].
      unfold occurrences in *. cbn [filter].
      assert (A : eqc (char_of "{") h = false).
      { destruct (eqc (char_of "{") h) eqn:X; [|reflexivity].
        apply N.eqb_eq in X. subst h. discriminate. }
      assert (B : eqc (char_of "{") l = false).
      { destruct (eqc (char_of "{") l) eqn:X; [|reflexivity].
        apply N.eqb_eq in X. subst l. discriminate. }
      assert (C : eqc (char_of "{")
                      ((h - 55296) * 1024 + (l - 56320) + 65536)%N = false).
      { apply N.eqb_neq. change (char_of "{") with 123%N. lia. }
      rewrite A, B, C. apply IH. lia.
    + unfold occurrences in *. cbn [filter].
      destruct (eqc (char_of "{") h); cbn [List.length];
        [f_equal|]; apply (IH (l :: r')); simpl; lia.
Qed.

(** X8: the nesting depth lies between zero and the number of opening
    braces of the text; a text without an opening brace has depth
    zero. *)
Theorem countNesting_bounds (s : jsstring) :
  (0 <= countNesting s <= Z.of_nat (occurrences (char_of "{") s))%Z.
Proof.
  split; [apply countNesting_nonneg|].
  unfold countNesting.
  pose proof (countNesting_go_le (code_points s) 0 0) as H.
  rewrite (@code_points_occurrences (List.length s) s (Nat.le_refl _)) in H.
  lia.
Qed.

(** ** The inventory of variables *)

Lemma Set_add_fresh (o : Variable_) (s : list Variable_) :
  (forall o', In o' s -> oid o' < oid o) -> Set_add o s = s ++ [o].
Proof.
  intros H. unfold Set_add.
  destruct (existsb (fun o' => Nat.eqb (oid o') (oid o)) s) eqn:E; [|reflexivity].
  apply existsb_exists in E. destruct E as (o' & Hin & Heq).
  apply Nat.eqb_eq in Heq. specialize (H o' Hin). lia.
Qed.

Lemma allocated_snoc (n : nat) (vs : list Variable_) (a b : jsstring) (t : string) :
  allocated n vs -> allocated (S n) (vs ++ [MkVariable n a b t]).
Proof.
  intros H o Hin. apply in_app_or in Hin. destruct Hin as [Hin|[<-|[]]].
  - specialize (H o Hin). lia.
  - simpl. lia.
Qed.

Lemma add_greek_spec (table : list (jsstring * jsstring)) (text : jsstring) :
  forall vs n, allocated n vs ->
    exists new n',
      add_greek table text vs n = Ok (vs ++ new, n')
      /\ allocated n' (vs ++ new)
      /\ map entry new
         = map (fun e => (snd e, fst e, "greek"))
               (filter (fun e => includes text (fst e)) table).
Proof.
  induction table as [|[cmd sym] rest IH]; intros vs n Hvs.
  - exists [], n. simpl. unfold ret. rewrite app_nil_r. auto.
  - cbn [add_greek filter fst]. destruct (includes text cmd).
    + unfold bind, new_variable, bind, fresh, ret.
      rewrite Set_add_fresh by (intros o' Ho'; simpl; apply Hvs, Ho').
      destruct (IH _ (S n) (allocated_snoc sym cmd "greek" Hvs))
        as (new & n' & H1 & H2 & H3).
      exists (MkVariable n sym cmd "greek" :: new), n'.
      rewrite <- app_assoc in H1, H2. cbn [app] in H1, H2.
      split; [exact H1|]. split; [exact H2|].
      cbn [map]. rewrite H3. reflexivity.
    + apply IH, Hvs.
Qed.

Lemma add_latin_spec (l : list jsstring) :
  forall vs n, allocated n vs ->
    exists new n',
      add_latin l vs n = Ok (vs ++ new, n')
      /\ allocated n' (vs ++ new)
      /\ map entry new
         = map (fun v => (v, v, "latin")) (filter (fun v => negb (reserved v)) l).
Proof.
  induction l as [|v rest IH]; intros vs n Hvs.
  - exists [], n. simpl. unfold ret. rewrite app_nil_r. auto.
  - cbn [add_latin filter]. fold (reserved v). destruct (negb (reserved v)).
    + unfold bind, new_variable, bind, fresh, ret.
      rewrite Set_add_fresh by (intros o' Ho'; simpl; apply Hvs, Ho').
      destruct (IH _ (S n) (allocated_snoc v v "latin" Hvs))
        as (new & n' & H1 & H2 & H3).
      exists (MkVariable n v v "latin" :: new), n'.
      rewrite <- app_assoc in H1, H2. cbn [app] in H1, H2.
      split; [exact H1|]. split; [exact H2|].
      cbn [map]. rewrite H3. reflexivity.
    + apply IH, Hvs.
Qed.

Lemma extractVariables_spec (text : jsstring) (n : nat) :
  exists vs n',
    extractVariables text n = Ok (vs, n')
    /\ map entry vs
       = map (fun e => (snd e, fst e, "greek")) (greek_hits text)
         ++ map (fun v => (v, v, "latin")) (latin_hits text).
Proof.
  unfold extractVariables, bind, greek_hits, latin_hits.
  assert (H0 : allocated n []) by (intros o []).
  destruct (add_greek_spec symbolMap text H0) as (g & n1 & G1 & G2 & G3).
  cbn [app] in G1, G2. rewrite G1.
  destruct (str_match false re_latin text) as [l|]; unfold or_empty.
  - destruct (add_latin_spec l G2) as (t & n2 & L1 & L2 & L3).
    rewrite L1. unfold ret. eexists. eexists. split; [reflexivity|].
    rewrite map_app, G3, L3. reflexivity.
  - unfold ret. eexists. eexists. split; [reflexivity|].
    rewrite G3. unfold filter at 2. unfold map at 3. rewrite app_nil_r. reflexivity.
Qed.

Lemma parse_variables_ok (s : jsstring) (n : nat) :
  exists r n',
    parse s n = Ok (r, n')
    /\ cleaned r = clean s
    /\ map entry (variables r)
       = map (fun e => (snd e, fst e, "greek")) (greek_hits (clean s))
         ++ map (fun v => (v, v, "latin")) (latin_hits (clean s)).
Proof.
  unfold parse, bind, lift.
  destruct (toReadable_ok (clean s)) as [x Hx]. rewrite Hx.
  destruct (extractVariables_spec (clean s) n) as (vs & n' & Hv & He).
  rewrite Hv. unfold ret. eexists. eexists. split; [reflexivity|].
  split; [reflexivity|exact He].
Qed.


Lemma latin_exec (b a : jsstring) (st : mstate) :
  exec_at false re_latin b a = Some st ->
  exists c rest, a = c :: rest /\ is_letter c = true /\ mlen st = 1.
Proof.
  unfold exec_at, re_latin, seq. cbn [fold_right m].
  destruct (prev_is backslash_or_letter _); [discriminate|].
  cbn [after]. destruct a as [|c rest]; [discriminate|].
  destruct (is_letter c) eqn:Ec; [|discriminate].
  destruct (next_is is_letter _); [discriminate|].
  intros H. inversion H; subst st. exists c, rest. auto.
Qed.

Lemma latin_matches_letters (a : jsstring) :
  forall b skip,
    Forall (fun v => exists c, v = [c] /\ is_letter c = true)
           (match_go false re_latin b a skip).
Proof.
  induction a as [|c rest IH]; intros b skip.
  - destruct skip; cbn [match_go]; [|constructor].
    destruct (exec_at false re_latin b []) as [st|] eqn:E; [|constructor].
    apply latin_exec in E. destruct E as (x & r & E & _). discriminate.
  - destruct skip; cbn [match_go]; [|apply IH].
    destruct (exec_at false re_latin b (c :: rest)) as [st|] eqn:E; [|apply IH].
    apply latin_exec in E. destruct E as (x & r & E & Hx & Hl).
    inversion E; subst x r. rewrite Hl. constructor; [|apply IH].
    exists c. auto.
Qed.

Lemma latin_hits_letters (text v : jsstring) :
  In v (latin_hits text) ->
  exists c, v = [c] /\ is_letter c = true /\ reserved v = false.
Proof.
  unfold latin_hits. intros H. apply filter_In in H. destruct H as [Hin Hr].
  apply negb_true_iff in Hr.
  assert (F : Forall (fun v => exists c, v = [c] /\ is_letter c = true)
                     (or_empty (str_match false re_latin text))).
  { unfold str_match.
    pose proof (latin_matches_letters text [] 0) as F.
    destruct (match_go false re_latin [] text 0); [constructor|exact F]. }
  rewrite Forall_forall in F. destruct (F v Hin) as (c & Hc & Hl).
  exists c. auto.
Qed.

Lemma in_entries (vs : list Variable_) (v : Variable_)
      (G : list (jsstring * jsstring)) (L : list jsstring) :
  map entry vs
  = map (fun e => (snd e, fst e, "greek")) G ++ map (fun v => (v, v, "latin")) L ->
  In v vs ->
  (type v = "greek" /\ In (latex v, symbol v) G)
  \/ (type v = "latin" /\ symbol v = latex v /\ In (symbol v) L).
Proof.
  intros E Hin. apply (in_map entry) in Hin. rewrite E in Hin.
  apply in_app_or in Hin. destruct Hin as [Hin|Hin]; apply in_map_iff in Hin.
  - destruct Hin as ([cmd sym] & He & Hin). unfold entry in He.
    cbn [fst snd] in He. inversion He. subst cmd sym.
    left. split; [reflexivity|exact Hin].
  - destruct Hin as (x & He & Hin). unfold entry in He.
    inversion He. right. repeat split; congruence.
Qed.

(** X10: the letters d, e and i are never listed, and every entry of
    type latin is a single ASCII letter, given as symbol and as
    latex. *)
Theorem latin_entries_single_unreserved :
  forall s n, exists r n',
    parse s n = Ok (r, n')
    /\ forall v, In v (variables r) -> type v = "latin" ->
         exists c, symbol v = [c] /\ latex v = [c] /\ is_letter c = true
                   /\ c <> char_of "d" /\ c <> char_of "e" /\ c <> char_of "i".
Proof.
  intros s n. destruct (parse_variables_ok s n) as (r & n' & H & Hc & Hv).
  exists r, n'. split; [exact H|]. intros v Hin Ht.
  destruct (@in_entries _ _ _ _ Hv Hin) as [[Hg _]|(_ & Hs & Hl)];
    [rewrite Ht in Hg; discriminate|].
  apply latin_hits_letters in Hl. destruct Hl as (c & Hc' & Hlet & Hres).
  exists c. rewrite <- Hs. split; [exact Hc'|]. split; [exact Hc'|].
  split; [exact Hlet|].
  rewrite Hc' in Hres.
  repeat split; intros E; subst c; discriminate.
Qed.

Lemma starts_with_app (p q s : jsstring) :
  starts_with (p ++ q) s = true -> starts_with p s = true.
Proof.
  revert s. induction p as [|x p IH]; intros s H; [reflexivity|].
  destruct s as [|y s]; [discriminate|]. cbn [app starts_with] in *.
  apply andb_prop in H. destruct H as [H1 H2]. rewrite H1. apply IH, H2.
Qed.

Lemma includes_app (s p q : jsstring) :
  includes s (p ++ q) = true -> includes s p = true.
Proof.
  induction s as [|c r IH]; intros H.
  - cbn [includes] in *. rewrite orb_false_r in *. apply (starts_with_app _ _ _ H).
  - rewrite includes_cons in *. apply orb_prop in H. destruct H as [H|H].
    + rewrite (starts_with_app _ _ _ H). reflexivity.
    + rewrite (IH H). apply orb_true_r.
Qed.

Lemma greek_hits_In (text cmd sym : jsstring) :
  In (cmd, sym) (greek_hits text)
  <-> In (cmd, sym) symbolMap /\ includes text cmd = true.
Proof.
  unfold greek_hits. rewrite filter_In. reflexivity.
Qed.

(** X11: a table command is listed exactly when its text occurs in the
    cleaned string: for every pair of the symbol table, the variables
    hold an entry of type greek with that command and glyph if and
    only if the cleaned text includes the command. *)
Theorem greek_entries_are_table_hits :
  forall s n, exists r n',
    parse s n = Ok (r, n')
    /\ forall cmd sym,
         (exists v, In v (variables r)
                    /\ latex v = cmd /\ symbol v = sym /\ type v = "greek")
         <-> (In (cmd, sym) symbolMap /\ includes (cleaned r) cmd = true).
Proof.
  intros s n. destruct (parse_variables_ok s n) as (r & n' & H & Hc & Hv).
  exists r, n'. split; [exact H|]. intros cmd sym. rewrite Hc. split.
  - intros (v & Hin & E1 & E2 & Ht).
    destruct (@in_entries _ _ _ _ Hv Hin) as [[_ Hg]|(Hl & _)].
    + rewrite E1, E2 in Hg. apply greek_hits_In in Hg. exact Hg.
    + exfalso. rewrite Ht in Hl. discriminate Hl.
  - intros Hi. apply greek_hits_In in Hi.
    assert (Hg : In (sym, cmd, "greek")
                    (map (fun e => (snd e, fst e, "greek")) (greek_hits (clean s)))).
    { apply in_map_iff. exists (cmd, sym). split; [reflexivity|exact Hi]. }
    assert (He : In (sym, cmd, "greek") (map entry (variables r))).
    { rewrite Hv. apply in_or_app. left. exact Hg. }
    apply in_map_iff in He. destruct He as (v & He & Hv').
    unfold entry in He. inversion He. exists v.
    split; [exact Hv'|]. split; [reflexivity|]. split; reflexivity.
Qed.

(** X12: there is no token boundary in the greek inventory: a table
    command is listed also where its text begins a longer command.
    Every input whose cleaned text holds [\int] or [\infty] lists the
    symbol of [\in], and every one that holds [\cdots] lists the
    symbol of [\cdot]. *)
Theorem greek_listed_inside_longer_command :
  forall s n, exists r n',
    parse s n = Ok (r, n')
    /\ (forall cmd sym more,
          In (cmd, sym) symbolMap ->
          includes (cleaned r) (cmd ++ more) = true ->
          exists v, In v (variables r) /\ latex v = cmd /\ symbol v = sym)
    /\ (includes (cleaned r) (js "\int") = true
        \/ includes (cleaned r) (js "\infty") = true ->
        exists v, In v (variables r) /\ latex v = js "\in" /\ symbol v = js "∈")
    /\ (includes (cleaned r) (js "\cdots") = true ->
        exists v, In v (variables r) /\ latex v = js "\cdot" /\ symbol v = js "·").
Proof.
  intros s n. destruct (greek_entries_are_table_hits s n) as (r & n' & H & Hg).
  exists r, n'. split; [exact H|].
  assert (G : forall cmd sym more,
             In (cmd, sym) symbolMap ->
             includes (cleaned r) (cmd ++ more) = true ->
             exists v, In v (variables r) /\ latex v = cmd /\ symbol v = sym).
  { intros cmd sym more Hin Hi. apply includes_app in Hi.
    destruct (proj2 (Hg cmd sym) (conj Hin Hi)) as (v & A & B & C & _).
    exists v. auto. }
  split; [exact G|]. split.
  - intros [Hi|Hi].
    + apply (G (js "\in") (js "∈") (js "t")); [vm_compute; tauto|exact Hi].
    + apply (G (js "\in") (js "∈") (js "fty")); [vm_compute; tauto|exact Hi].
  - intros Hi.
    apply (G (js "\cdot") (js "·") (js "s")); [vm_compute; tauto|exact Hi].
Qed.

(** ** Literal patterns and String.includes *)

Lemma m_chars_match (R : Type) (ic : bool) (k : jsstring) :
  forall st (K : mstate -> option R),
    starts_with k (after st) = true ->
    exists st', m ic (seq (map Chr k)) st K = K st'.
Proof.
  induction k as [|c k IH]; intros st K H.
  - exists st. reflexivity.
  - cbn [map seq fold_right m]. fold (seq (map Chr k)).
    destruct (after st) as [|y rest] eqn:Ea; [discriminate|].
    cbn [starts_with] in H. apply andb_prop in H. destruct H as [H1 H2].
    apply N.eqb_eq in H1. subst y.
    unfold eqc at 1. rewrite N.eqb_refl.
    apply (IH (advance c rest st) K). exact H2.
Qed.

Lemma m_chars_fail (R : Type) (k : jsstring) :
  forall st (K : mstate -> option R),
    starts_with k (after st) = false ->
    m false (seq (map Chr k)) st K = None.
Proof.
  induction k as [|c k IH]; intros st K H; [discriminate|].
  cbn [map seq fold_right m]. fold (seq (map Chr k)).
  destruct (after st) as [|y rest] eqn:Ea; [reflexivity|].
  cbn [starts_with] in H. cbn [canon andb].
  unfold eqc in *. rewrite (N.eqb_sym y c).
  destruct (c =? y)%N; [|reflexivity].
  apply (IH (advance y rest st) K). exact H.
Qed.

(** A pattern that is a plain text tests true exactly on the strings
    that include the text. *)
Lemma test_chars_includes (k a : jsstring) :
  forall b, test_from false (seq (map Chr k)) b a = includes a k.
Proof.
  induction a as [|c rest IH]; intros b; cbn [test_from].
  - cbn [includes]. rewrite orb_false_r. unfold exec_at.
    destruct (starts_with k []) eqn:E.
    + destruct (m_chars_match false k (MState b [] 0 []) (fun st => Some st) E)
        as [st' ->]. reflexivity.
    + rewrite m_chars_fail by exact E. reflexivity.
  - rewrite includes_cons. unfold exec_at.
    destruct (starts_with k (c :: rest)) eqn:E.
    + destruct (m_chars_match false k (MState b (c :: rest) 0 [])
                              (fun st => Some st) E) as [st' ->].
      reflexivity.
    + rewrite m_chars_fail by exact E. apply IH.
Qed.

Lemma test_lit_includes (k : string) (s : jsstring) :
  test false (lit k) s = includes s (js k).
Proof. apply test_chars_includes. Qed.

(** With or without the ignoreCase flag, a disjunction one of whose
    alternatives is a plain text tests true on the strings that include
    the text. *)
Lemma test_alt_includes (ic : bool) (r1 : regex) (k a : jsstring) :
  includes a k = true ->
  (forall b, test_from ic (Alt r1 (seq (map Chr k))) b a = true)
  /\ (forall b, test_from ic (Alt (seq (map Chr k)) r1) b a = true).
Proof.
  induction a as [|c rest IH]; intros H.
  - cbn [includes] in H. rewrite orb_false_r in H.
    split; intros b; cbn [test_from]; unfold exec_at; cbn [m];
      destruct (m_chars_match ic k (MState b [] 0 []) (fun st => Some st) H)
        as [st' ->].
    + destruct (m ic r1 _ _); reflexivity.
    + reflexivity.
  - rewrite includes_cons in H.
    destruct (starts_with k (c :: rest)) eqn:E.
    + split; intros b; cbn [test_from]; unfold exec_at; cbn [m];
        destruct (m_chars_match ic k (MState b (c :: rest) 0 [])
                                (fun st => Some st) E) as [st' ->].
      * destruct (m ic r1 _ _); reflexivity.
      * reflexivity.
    + cbn [orb] in H. destruct (IH H) as [I1 I2].
      split; intros b; cbn [test_from].
      * destruct (exec_at ic _ b (c :: rest)); [reflexivity|apply I1].
      * destruct (exec_at ic _ b (c :: rest)); [reflexivity|apply I2].
Qed.

Lemma present_iff (ic : bool) (table : list (string * regex)) (text : jsstring)
      (name : string) :
  In name (present ic table text)
  <-> exists re, In (name, re) table /\ test ic re text = true.
Proof.
  unfold present. rewrite in_map_iff. split.
  - intros ([nm re] & E & H). simpl in E. subst nm.
    apply filter_In in H. exists re. exact H.
  - intros (re & H1 & H2). exists (name, re). split; [reflexivity|].
    apply filter_In. auto.
Qed.

Lemma operators_sum (text : jsstring) :
  In "sum" (extractOperators text) <-> test false (lit "\sum") text = true.
Proof.
  unfold extractOperators. rewrite present_iff. split.
  - intros (re & Hin & Ht). unfold opPatterns in Hin. simpl in Hin.
    repeat (destruct Hin as [Hin|Hin];
            [inversion Hin; subst; try exact Ht|]); contradiction.
  - intros Ht. exists (lit "\sum"). split; [simpl; tauto|exact Ht].
Qed.

Lemma operators_integral (text : jsstring) :
  In "integral" (extractOperators text) <-> test false (lit "\int") text = true.
Proof.
  unfold extractOperators. rewrite present_iff. split.
  - intros (re & Hin & Ht). unfold opPatterns in Hin. simpl in Hin.
    repeat (destruct Hin as [Hin|Hin];
            [inversion Hin; subst; try exact Ht|]); contradiction.
  - intros Ht. exists (lit "\int"). split; [simpl; tauto|exact Ht].
Qed.

Lemma operators_gradient (text : jsstring) :
  In "gradient" (extractOperators text) <-> includes text (js "\nabla") = true.
Proof.
  rewrite <- test_lit_includes.
  unfold extractOperators. rewrite present_iff. split.
  - intros (re & Hin & Ht). unfold opPatterns in Hin. simpl in Hin.
    repeat (destruct Hin as [Hin|Hin];
            [inversion Hin; subst; try exact Ht|]); contradiction.
  - intros Ht. exists (lit "\nabla"). split; [simpl; tauto|exact Ht].
Qed.

Lemma functions_loss (text : jsstring) :
  includes text (js "loss") = true \/ includes text (js "\mathcal{L}") = true ->
  In "loss" (extractFunctions text).
Proof.
  intros H. unfold extractFunctions.
  apply (present_In (fun e => test (fst (snd e)) (snd (snd e)) text)
                    funcPatterns
                    ("loss", (true, Alt (lit "\mathcal{L}") (lit "loss")))).
  - unfold funcPatterns. simpl. tauto.
  - cbn [fst snd]. unfold test, lit. destruct H as [H|H].
    + apply (proj1 (test_alt_includes true _ _ _ H)).
    + apply (proj2 (test_alt_includes true _ _ _ H)).
Qed.

(** ** How the operators, the functions and the structure agree *)

(** X13: the summation and integral flags of the structure say what the
    operators list says: hasSummation is true exactly when sum is
    listed, hasIntegral exactly when integral is. *)
Theorem flags_agree_with_operators :
  forall s n, exists r n',
    parse s n = Ok (r, n')
    /\ (hasSummation (structure r) = true <-> In "sum" (operators r))
    /\ (hasIntegral (structure r) = true <-> In "integral" (operators r)).
Proof.
  intros s n. destruct (parse_ok s n) as (x & vs & n' & H).
  eexists. eexists. split; [exact H|]. cbn [structure operators].
  split.
  - rewrite operators_sum. reflexivity.
  - rewrite operators_integral. reflexivity.
Qed.

Lemma eqtype_cases (text : jsstring) :
  let st := analyzeStructure text in
  let loss := hasSummation st
              && (includes text (js "loss") || includes text (js "\mathcal{L}")) in
  let grad := includes text (js "\nabla") || includes text (js "\partial") in
  (eqtype st = "loss_function" <-> loss = true)
  /\ (eqtype st = "gradient" <-> loss = false /\ grad = true)
  /\ (eqtype st = "summation" ->
      loss = false /\ grad = false /\ hasMatrix st = false
      /\ hasSummation st = true)
  /\ (eqtype st = "general" ->
      grad = false /\ hasMatrix st = false /\ hasSummation st = false).
Proof.
  cbv zeta. cbn [analyzeStructure eqtype hasSummation hasMatrix].
  destruct (test false (lit "\sum") text);
    destruct (includes text (js "loss") || includes text (js "\mathcal{L}"));
    destruct (includes text (js "\nabla") || includes text (js "\partial"));
    destruct (includes text (js "\mathbb{E}") || includes text (js "\Pr"));
    destruct (test false re_matrix text);
    cbn [andb]; repeat split; intros; try discriminate; try reflexivity;
    try (destruct H; discriminate); auto.
Qed.

(** X14: a gradient operator decides the type unless the loss rule
    comes first: when gradient is listed among the operators the type
    is loss_function or gradient, and when the type is gradient the
    cleaned text holds [\nabla] (gradient is listed) or [\partial]. *)
Theorem gradient_operator_and_type :
  forall s n, exists r n',
    parse s n = Ok (r, n')
    /\ (In "gradient" (operators r) ->
        eqtype (structure r) = "loss_function"
        \/ eqtype (structure r) = "gradient")
    /\ (eqtype (structure r) = "gradient" ->
        In "gradient" (operators r)
        \/ includes (cleaned r) (js "\partial") = true).
Proof.
  intros s n. destruct (parse_ok s n) as (x & vs & n' & H).
  eexists. eexists. split; [exact H|]. cbn [structure operators cleaned].
  destruct (eqtype_cases (clean s)) as (L & G & _). cbv zeta in *.
  split.
  - intros Hg. apply operators_gradient in Hg.
    destruct (hasSummation (analyzeStructure (clean s))
              && (includes (clean s) (js "loss")
                  || includes (clean s) (js "\mathcal{L}"))) eqn:E.
    + left. apply L. reflexivity.
    + right. apply G. rewrite Hg. auto.
  - intros Ht. apply G in Ht. destruct Ht as [_ Ht].
    apply orb_prop in Ht. destruct Ht as [Ht|Ht]; [left|right; exact Ht].
    apply operators_gradient. exact Ht.
Qed.

(** X15: an equation typed loss_function has its summation flag set,
    lists sum among its operators and loss among its functions. *)
Theorem loss_function_type_has_sum_and_loss :
  forall s n, exists r n',
    parse s n = Ok (r, n')
    /\ (eqtype (structure r) = "loss_function" ->
        hasSummation (structure r) = true
        /\ In "sum" (operators r) /\ In "loss" (functions r)).
Proof.
  intros s n. destruct (parse_ok s n) as (x & vs & n' & H).
  eexists. eexists. split; [exact H|].
  cbn [structure operators functions].
  destruct (eqtype_cases (clean s)) as (L & _). cbv zeta in *.
  intros Ht. apply L in Ht. apply andb_prop in Ht. destruct Ht as [Hs Hl].
  split; [exact Hs|]. split.
  - apply operators_sum. exact Hs.
  - apply functions_loss. apply orb_prop in Hl. exact Hl.
Qed.

(** X16: the two last types say what is absent.  An equation typed
    summation lists sum and no gradient operator; one typed general
    lists neither; in both cases no matrix was found. *)
Theorem summation_and_general_types :
  forall s n, exists r n',
    parse s n = Ok (r, n')
    /\ (eqtype (structure r) = "summation" ->
        In "sum" (operators r) /\ ~ In "gradient" (operators r)
        /\ hasMatrix (structure r) = false)
    /\ (eqtype (structure r) = "general" ->
        ~ In "sum" (operators r) /\ ~ In "gradient" (operators r)
        /\ hasMatrix (structure r) = false).
Proof.
  intros s n. destruct (parse_ok s n) as (x & vs & n' & H).
  eexists. eexists. split; [exact H|].
  cbn [structure operators].
  destruct (eqtype_cases (clean s)) as (_ & _ & S & G). cbv zeta in *.
  split; intros Ht.
  - apply S in Ht. destruct Ht as (_ & Hg & Hm & Hs).
    apply orb_false_elim in Hg. destruct Hg as [Hg _].
    split; [apply operators_sum; exact Hs|].
    split; [|exact Hm].
    intros Hin. apply operators_gradient in Hin. congruence.
  - apply G in Ht. destruct Ht as (Hg & Hm & Hs).
    apply orb_false_elim in Hg. destruct Hg as [Hg _].
    split; [|split; [|exact Hm]].
    + intros Hin. apply operators_sum in Hin.
      cbn [analyzeStructure hasSummation] in Hs. congruence.
    + intros Hin. apply operators_gradient in Hin. congruence.
Qed.

(** ** Plain text through toReadable *)

(** A pattern that cannot match without a given character matches
    nowhere in a text without it. *)
Lemma needs_char (ic : bool) (r : regex) (c : char) :
  (forall b a, exec_at ic r b a <> None -> In c a) ->
  forall a, ~ In c a -> forall b, test_from ic r b a = false.
Proof.
  intros Hr. induction a as [|x rest IH]; intros Hn b; cbn [test_from].
  - destruct (exec_at ic r b []) eqn:E; [|reflexivity].
    exfalso. apply (Hr b []). congruence.
  - destruct (exec_at ic r b (x :: rest)) eqn:E.
    + exfalso. apply Hn, (Hr b). congruence.
    + apply IH. intros Hin. apply Hn. right. exact Hin.
Qed.

Lemma head_needed (r : regex) (c : char) :
  heads_with c r = true ->
  forall b a, exec_at false r b a <> None -> In c a.
Proof.
  assert (A : forall x y rest P, eqc x c = true ->
             (if eqc y x then P else @None mstate) <> None -> In c (y :: rest)).
  { intros x y rest P E. apply N.eqb_eq in E. subst x.
    destruct (eqc y c) eqn:Ey; [|intros H; exfalso; apply H; reflexivity].
    apply N.eqb_eq in Ey. subst y. intros _. left. reflexivity. }
  destruct r as [ | | |r1 r2| | | | | | | | | ]; try discriminate.
  destruct r1 as [ |x| |r11 r12| | | | | | | | | ]; try discriminate.
  - cbn [heads_with]. intros E b a. unfold exec_at. cbn [m after canon andb].
    destruct a as [|y rest]; [intros H; exfalso; apply H; reflexivity|].
    apply A. exact E.
  - destruct r11 as [ |x| | | | | | | | | | | ]; try discriminate.
    cbn [heads_with]. intros E b a. unfold exec_at. cbn [m after canon andb].
    destruct a as [|y rest]; [intros H; exfalso; apply H; reflexivity|].
    apply A. exact E.
Qed.

Lemma replace_absent (ic : bool) (r : regex) (repl s : jsstring) :
  test ic r s = false -> replace ic r repl s = s.
Proof. intros H. apply replace_no_match. exact H. Qed.

Lemma replace_without_head (r : regex) (c : char) (repl s : jsstring) :
  heads_with c r = true -> ~ In c s -> replace false r repl s = s.
Proof.
  intros Hr Hs. apply replace_no_match.
  apply (@needs_char false r c (@head_needed r c Hr)). exact Hs.
Qed.

Lemma symbolMap_heads_backslash :
  Forall (fun e => exists re,
              RegExp_new (replace false (lit "\") (js "\\") (fst e)) = Ok re
              /\ heads_with 92%N re = true) symbolMap.
Proof.
  unfold symbolMap. cbn [map].
  repeat (constructor; [eexists; split; vm_compute; reflexivity|]).
  constructor.
Qed.

Lemma substitute_all_without_backslash (table : list (jsstring * jsstring)) :
  Forall (fun e => exists re,
              RegExp_new (replace false (lit "\") (js "\\") (fst e)) = Ok re
              /\ heads_with 92%N re = true) table ->
  forall s, ~ In 92%N s -> substitute_all table s = Ok s.
Proof.
  induction 1 as [|[cmd sym] rest (re & Hre & Hh) _ IH]; intros s Hs.
  - reflexivity.
  - cbn [substitute_all substitute]. simpl in Hre. rewrite Hre. cbn [rbind].
    rewrite (@replace_without_head re 92%N sym s Hh Hs). apply IH, Hs.
Qed.

Lemma mark_template (mark x : char) (mt pre post : jsstring) :
  mark <> 36%N ->
  GetSubstitution mt pre post [(1, [x])] 1 [mark; 36%N; 49%N] = [mark; x].
Proof.
  intros Hm. cbn [GetSubstitution].
  assert (E : eqc mark 36%N = false) by (apply N.eqb_neq; exact Hm).
  rewrite E. reflexivity.
Qed.

(** The rewriting of a one-character exponent or subscript puts back
    what it matched. *)
Lemma mark_kept (mark : char) (n : nat) :
  mark <> 36%N ->
  forall a b, List.length a <= n ->
    replace_go false (Cat (Cat (Chr mark) Eps) (Cat (Grp 1 (Cls is_word)) Eps))
               [mark; 36%N; 49%N] b a 0 = a.
Proof.
  intros Hm. induction n as [|n IH]; intros a b Hn.
  - destruct a; [reflexivity|simpl in Hn; lia].
  - destruct a as [|c rest]; [reflexivity|]. simpl in Hn.
    cbn [replace_go]. unfold exec_at. cbn [m after canon andb advance mlen before caps].
    destruct (eqc c mark) eqn:Ec.
    + apply N.eqb_eq in Ec. subst c.
      destruct rest as [|x rest']; [reflexivity|].
      destruct (is_word x) eqn:Ex.
      * cbn [mlen caps after ngroups Nat.add firstn Nat.sub].
        rewrite (mark_template x _ _ _ Hm). cbn [app].
        f_equal. f_equal. apply IH. simpl in Hn. lia.
      * f_equal. apply IH. lia.
    + f_equal. apply IH. lia.
Qed.

Lemma sup_kept (s : jsstring) : replace false re_sup (js "^$1") s = s.
Proof.
  apply (@mark_kept 94%N (List.length s)); [discriminate|lia].
Qed.

Lemma sub_kept (s : jsstring) : replace false re_sub (js "_$1") s = s.
Proof.
  apply (@mark_kept 95%N (List.length s)); [discriminate|lia].
Qed.

Lemma braces_absent (s : jsstring) :
  brace_free s -> replace false re_braces (js "") s = s.
Proof.
  intros [H1 H2]. unfold replace, re_braces. change (js "") with (@nil char).
  rewrite replace_class_erase.
  induction s as [|c r IH]; [reflexivity|].
  cbn [filter].
  assert (E : oneof "{}" c = false).
  { unfold oneof. change (js "{}") with [123%N; 125%N]. cbn [existsb].
    destruct (eqc c 123%N) eqn:A.
    - apply N.eqb_eq in A. subst c. exfalso. apply H1. left. reflexivity.
    - destruct (eqc c 125%N) eqn:B; [|reflexivity].
      apply N.eqb_eq in B. subst c. exfalso. apply H2. left. reflexivity. }
  rewrite E. cbn [negb]. f_equal. apply IH.
  - intros Hin. apply H1. right. exact Hin.
  - intros Hin. apply H2. right. exact Hin.
Qed.

Lemma toReadable_steps (s : jsstring) :
  substitute_all symbolMap s = Ok s ->
  toReadable s
  = Ok (trim
          (replace false re_braces (js "")
          (replace false re_command (js "")
          (replace false re_mathbf (js "$1")
          (replace false re_mathrm (js "$1")
          (replace false re_text (js "$1")
          (replace false re_sqrt_n (js "$1√($2)")
          (replace false re_sqrt (js "√($1)")
          (replace false re_sub_braced (js "_($1)")
          (replace false re_sup_braced (js "^($1)")
          (replace false re_frac (js "($1)/($2)") s))))))))))).
Proof.
  intros H. unfold toReadable. rewrite H. cbn [rbind].
  rewrite sup_kept, sub_kept. reflexivity.
Qed.

Lemma second_char_needed (r : regex) (c d : char) :
  r = Cat (Cat (Chr d) (Cat (Chr c) Eps)) (Cat (Grp 1 braced) (Cat (Cat (Chr 125%N) Eps) Eps)) ->
  forall b a, exec_at false r b a <> None -> In c a.
Proof.
  intros -> b a. unfold exec_at. cbn [m after canon andb advance].
  destruct a as [|x rest]; [intros H; exfalso; apply H; reflexivity|].
  destruct (eqc x d); [|intros H; exfalso; apply H; reflexivity].
  destruct rest as [|y rest']; [intros H; exfalso; apply H; reflexivity|].
  destruct (eqc y c) eqn:Ey; [|intros H; exfalso; apply H; reflexivity].
  apply N.eqb_eq in Ey. subst y. intros _. right. left. reflexivity.
Qed.

(** X17: toReadable leaves plain text alone: a text without a backslash
    and without braces comes back trimmed and otherwise unchanged. *)
Theorem toReadable_plain_text (s : jsstring) :
  ~ In (char_of "\") s -> brace_free s -> toReadable s = Ok (trim s).
Proof.
  intros Hb Hf.
  rewrite toReadable_steps
    by (apply (@substitute_all_without_backslash symbolMap symbolMap_heads_backslash), Hb).
  rewrite (@replace_without_head re_frac 92%N _ _ eq_refl Hb).
  rewrite (@replace_absent false re_sup_braced _ s).
  2:{ apply (@needs_char false re_sup_braced 123%N
               (@second_char_needed re_sup_braced 123%N 94%N eq_refl)).
      apply Hf. }
  rewrite (@replace_absent false re_sub_braced _ s).
  2:{ apply (@needs_char false re_sub_braced 123%N
               (@second_char_needed re_sub_braced 123%N 95%N eq_refl)).
      apply Hf. }
  rewrite (@replace_without_head re_sqrt 92%N _ _ eq_refl Hb).
  rewrite (@replace_without_head re_sqrt_n 92%N _ _ eq_refl Hb).
  rewrite (@replace_without_head re_text 92%N _ _ eq_refl Hb).
  rewrite (@replace_without_head re_mathrm 92%N _ _ eq_refl Hb).
  rewrite (@replace_without_head re_mathbf 92%N _ _ eq_refl Hb).
  rewrite (@replace_without_head re_command 92%N _ _ eq_refl Hb).
  rewrite (braces_absent Hf). reflexivity.
Qed.

Lemma toReadable_plain_text_witness :
  let s := js "  p(x, y) <= 2^n + x_1  " in
  toReadable s = Ok (js "p(x, y) <= 2^n + x_1").
Proof.
  cbv zeta.
  rewrite toReadable_plain_text;
    [vm_compute; reflexivity
    |vm_compute; intuition discriminate
    |split; vm_compute; intuition discriminate].
Defined.

(** X18: for an input without a backslash and without braces, the
    readable form is the cleaned form. *)
Theorem readable_is_cleaned_on_plain_input (x : jsstring) (n : nat) :
  ~ In (char_of "\") x -> brace_free x ->
  exists r n', parse x n = Ok (r, n') /\ readable r = cleaned r.
Proof.
  intros Hb [Hf1 Hf2].
  assert (Hb' : ~ In 92%N (clean x))
    by (apply clean_keeps_out; [discriminate|exact Hb]).
  assert (Hf' : brace_free (clean x))
    by (split; apply clean_keeps_out; (discriminate || assumption)).
  pose proof (toReadable_plain_text Hb' Hf') as T.
  destruct (clean_normal x) as (_ & _ & _ & _ & Ht). cbv zeta in Ht.
  rewrite Ht in T.
  destruct (extractVariables_ok (clean x) n) as (vs & n' & Hv).
  unfold parse, bind, lift. rewrite T, Hv. unfold ret.
  eexists. eexists. split; reflexivity.
Qed.

Lemma readable_is_cleaned_on_plain_input_witness :
  exists r n',
    parse (js " a  &  b = c ") 0 = Ok (r, n') /\ readable r = cleaned r.
Proof.
  apply readable_is_cleaned_on_plain_input.
  - vm_compute. intuition discriminate.
  - split; vm_compute; intuition discriminate.
Defined.

(** ** Fractions *)

Unset Implicit Arguments.

Lemma star_greedy_takes_run (R : Type) (p : char -> bool) (run rest : jsstring) :
  forall b n (K : jsstring -> jsstring -> nat -> option R) r,
    forallb p run = true ->
    match rest with [] => True | d :: _ => p d = false end ->
    K (rev run ++ b) rest (n + List.length run) = Some r ->
    star_greedy p b (run ++ rest) n K = Some r.
Proof.
  induction run as [|c run IH]; intros b n K r Hp Hr HK.
  - cbn [app rev List.length] in *. rewrite Nat.add_0_r in HK.
    destruct rest as [|d rest']; cbn [star_greedy]; [exact HK|].
    rewrite Hr. exact HK.
  - cbn [forallb] in Hp. apply andb_prop in Hp. destruct Hp as [Hc Hp].
    cbn [app star_greedy]. rewrite Hc.
    rewrite (IH (c :: b) (S n) K r Hp Hr); [reflexivity|].
    cbn [rev List.length] in HK. rewrite <- app_assoc in HK. cbn [app] in HK.
    rewrite Nat.add_succ_r in HK. exact HK.
Qed.

(** A group of one or more characters of a class, on a text that
    starts with a run of the class: the run is captured whole when the
    rest of the pattern matches after it. *)
Lemma group_takes_run (R : Type) (ic : bool) (g : nat) (p : char -> bool)
      (x : char) (run rest : jsstring) (st : mstate)
      (K : mstate -> option R) (r : R) :
  after st = x :: run ++ rest ->
  p x = true -> forallb p run = true ->
  match rest with [] => True | d :: _ => p d = false end ->
  K (MState (rev run ++ x :: before st) rest (S (mlen st) + List.length run)
            ((g, x :: run) :: caps st)) = Some r ->
  m ic (Grp g (Plus p)) st K = Some r.
Proof.
  intros Ha Hx Hp Hr HK. cbn [m]. rewrite Ha, Hx.
  apply star_greedy_takes_run; [exact Hp|exact Hr|].
  unfold at_pos. cbn [before after mlen caps].
  replace (S (mlen st) + List.length run - mlen st) with (S (List.length run)) by lia.
  cbn [firstn]. rewrite firstn_app, firstn_all, Nat.sub_diag. cbn [firstn].
  rewrite app_nil_r. exact HK.
Qed.

Lemma m_chars_state (R : Type) (ic : bool) (k : jsstring) :
  forall st rest (K : mstate -> option R),
    after st = k ++ rest ->
    m ic (seq (map Chr k)) st K
    = K (MState (rev k ++ before st) rest (mlen st + List.length k) (caps st)).
Proof.
  induction k as [|c k IH]; intros st rest K Ha.
  - cbn [map seq fold_right m rev app List.length]. rewrite Nat.add_0_r.
    destruct st as [b a n cs]. cbn in *. subst a. reflexivity.
  - cbn [map seq fold_right m]. fold (seq (map Chr k)).
    rewrite Ha. cbn [app]. unfold eqc. rewrite N.eqb_refl.
    rewrite (IH (advance c (k ++ rest) st) rest K eq_refl).
    unfold advance. cbn [before mlen caps rev List.length].
    rewrite <- app_assoc. cbn [app]. f_equal. f_equal. lia.
Qed.

Lemma replace_go_skip_all (ic : bool) (r : regex) (repl a : jsstring) :
  nonempty r = true ->
  forall b, replace_go ic r repl b a (List.length a) = [].
Proof.
  intros Hr. induction a as [|c rest IH]; intros b; [|apply IH].
  cbn [List.length replace_go].
  destruct (exec_at ic r b []) as [st|] eqn:E; [|reflexivity].
  apply exec_at_bounds in E. destruct E as [E1 E2]. specialize (E2 Hr).
  simpl in E1. lia.
Qed.

Lemma trimEnd_snoc (s : jsstring) (c : char) :
  is_space c = false -> trimEnd (s ++ [c]) = s ++ [c].
Proof.
  intros Hc. induction s as [|x s IH].
  - cbn. rewrite Hc. reflexivity.
  - cbn [app]. rewrite trimEnd_cons, IH.
    destruct (s ++ [c]) eqn:E; [|reflexivity].
    destruct s; discriminate.
Qed.

Lemma frac_template (A B mt pre post : jsstring) :
  GetSubstitution mt pre post [(2, B); (1, A)] 2 (js "($1)/($2)")
  = js "(" ++ A ++ js ")/(" ++ B ++ js ")".
Proof. reflexivity. Qed.

Lemma class_not_brace (A : jsstring) :
  ~ In (char_of "}") A -> forallb (noneof "}") A = true.
Proof.
  induction A as [|c A IH]; intros H; [reflexivity|].
  cbn [forallb]. rewrite IH by (intros Hin; apply H; right; exact Hin).
  rewrite andb_true_r. unfold noneof, oneof.
  change (js "}") with [125%N]. cbn [existsb]. rewrite orb_false_r.
  destruct (eqc c 125%N) eqn:E; [|reflexivity].
  apply N.eqb_eq in E. subst c. exfalso. apply H. left. reflexivity.
Qed.

(** The fraction pattern on a fraction of two brace-free parts. *)
Lemma frac_exec (A B b : jsstring) :
  A <> [] -> B <> [] ->
  ~ In (char_of "}") A -> ~ In (char_of "}") B ->
  exists st,
    exec_at false re_frac b (js "\frac{" ++ A ++ js "}{" ++ B ++ js "}") = Some st
    /\ mlen st = List.length (js "\frac{" ++ A ++ js "}{" ++ B ++ js "}")
    /\ caps st = [(2, B); (1, A)].
Proof.
  intros HA HB NA NB.
  destruct A as [|a0 A]; [contradiction|]. destruct B as [|b0 B]; [contradiction|].
  pose proof (class_not_brace _ NA) as PA. pose proof (class_not_brace _ NB) as PB.
  cbn [forallb] in PA, PB.
  apply andb_prop in PA. destruct PA as [Pa PA].
  apply andb_prop in PB. destruct PB as [Pb PB].
  unfold exec_at, re_frac, seq, braced. cbn [fold_right].
  eexists. split.
  - step_cat. unfold lit at 1.
    erewrite m_chars_state by reflexivity.
    cbn [before mlen caps]. step_cat.
    eapply group_takes_run; [reflexivity|exact Pa|exact PA|reflexivity|].
    cbn [before mlen caps]. step_cat. unfold lit at 1.
    erewrite m_chars_state by reflexivity.
    cbn [before mlen caps]. step_cat.
    eapply group_takes_run; [reflexivity|exact Pb|exact PB|reflexivity|].
    cbn [before mlen caps]. step_cat. unfold lit at 1.
    erewrite (m_chars_state _ false (js "}") _ []) by reflexivity.
    cbn [m]. reflexivity.
  - cbn [mlen caps]. split; [|reflexivity].
    change (js "\frac{") with [92; 102; 114; 97; 99; 123]%N.
    change (js "}{") with [125; 123]%N. change (js "}") with [125]%N.
    cbn [app List.length]. rewrite !length_app. cbn [List.length].
    rewrite ?length_app. cbn [List.length]. lia.
Qed.

Lemma replace_frac (A B : jsstring) :
  A <> [] -> B <> [] ->
  ~ In (char_of "}") A -> ~ In (char_of "}") B ->
  replace false re_frac (js "($1)/($2)")
          (js "\frac{" ++ A ++ js "}{" ++ B ++ js "}")
  = js "(" ++ A ++ js ")/(" ++ B ++ js ")".
Proof.
  intros HA HB NA NB. unfold replace.
  destruct (frac_exec A B [] HA HB NA NB) as (st & E & Hl & Hc).
  change (js "\frac{") with [92; 102; 114; 97; 99; 123]%N in *.
  cbn [app] in *. cbn [replace_go]. rewrite E, Hc.
  change (ngroups re_frac) with 2. rewrite frac_template.
  cbn [List.length] in Hl. rewrite Hl.
  rewrite replace_go_skip_all by reflexivity.
  rewrite app_nil_r. reflexivity.
Qed.

Lemma test_from_cons (ic : bool) (r : regex) (b rest : jsstring) (c : char) :
  test_from ic r b (c :: rest)
  = match exec_at ic r b (c :: rest) with
    | Some _ => true
    | None => test_from ic r (c :: b) rest
    end.
Proof. reflexivity. Qed.

Lemma symbolMap_skips_frac :
  Forall (fun e => exists re,
              RegExp_new (replace false (lit "\") (js "\\") (fst e)) = Ok re
              /\ heads_with 92%N re = true
              /\ forall b tail,
                   exec_at false re b (92 :: 102 :: 114 :: tail)%N = None)
         symbolMap.
Proof.
  unfold symbolMap. cbn [map].
  repeat (constructor;
          [eexists; split;
           [vm_compute; reflexivity
           |split; [vm_compute; reflexivity|intros; vm_compute; reflexivity]]|]).
  constructor.
Qed.

Lemma substitute_all_frac (table : list (jsstring * jsstring)) :
  Forall (fun e => exists re,
              RegExp_new (replace false (lit "\") (js "\\") (fst e)) = Ok re
              /\ heads_with 92%N re = true
              /\ forall b tail,
                   exec_at false re b (92 :: 102 :: 114 :: tail)%N = None)
         table ->
  forall tail, ~ In 92%N tail ->
    substitute_all table (92 :: 102 :: 114 :: tail)%N
    = Ok (92 :: 102 :: 114 :: tail)%N.
Proof.
  induction 1 as [|[cmd sym] rest (re & Hre & Hh & Hx) _ IH]; intros tail Ht.
  - reflexivity.
  - cbn [substitute_all substitute]. cbn [fst] in Hre. rewrite Hre. cbn [rbind].
    rewrite replace_absent; [apply IH, Ht|].
    unfold test. rewrite test_from_cons, Hx.
    apply (@needs_char false re 92%N (@head_needed re 92%N Hh)).
    cbn [In]. intros [E|[E|Hin]]; [discriminate|discriminate|exact (Ht Hin)].
Qed.

(** After the fractions, a text without backslash and braces goes
    through the remaining rewritings unchanged. *)
Lemma later_stages_plain (R : jsstring) :
  ~ In 92%N R -> brace_free R ->
  replace false re_braces (js "")
  (replace false re_command (js "")
  (replace false re_mathbf (js "$1")
  (replace false re_mathrm (js "$1")
  (replace false re_text (js "$1")
  (replace false re_sqrt_n (js "$1√($2)")
  (replace false re_sqrt (js "√($1)")
  (replace false re_sub_braced (js "_($1)")
  (replace false re_sup_braced (js "^($1)") R)))))))) = R.
Proof.
  intros Hb Hf.
  rewrite (@replace_absent false re_sup_braced _ R).
  2:{ apply (@needs_char false re_sup_braced 123%N
               (@second_char_needed re_sup_braced 123%N 94%N eq_refl)).
      apply Hf. }
  rewrite (@replace_absent false re_sub_braced _ R).
  2:{ apply (@needs_char false re_sub_braced 123%N
               (@second_char_needed re_sub_braced 123%N 95%N eq_refl)).
      apply Hf. }
  rewrite (@replace_without_head re_sqrt 92%N _ _ eq_refl Hb).
  rewrite (@replace_without_head re_sqrt_n 92%N _ _ eq_refl Hb).
  rewrite (@replace_without_head re_text 92%N _ _ eq_refl Hb).
  rewrite (@replace_without_head re_mathrm 92%N _ _ eq_refl Hb).
  rewrite (@replace_without_head re_mathbf 92%N _ _ eq_refl Hb).
  rewrite (@replace_without_head re_command 92%N _ _ eq_refl Hb).
  apply (@braces_absent R Hf).
Qed.

(** X19: a fraction of two plain parts is written infix: for
    non-empty A and B without backslash and braces, toReadable turns
    [\frac{A}{B}] into [(A)/(B)]. *)
Theorem toReadable_fraction (A B : jsstring) :
  A <> [] -> B <> [] ->
  ~ In (char_of "\") A -> brace_free A ->
  ~ In (char_of "\") B -> brace_free B ->
  toReadable (js "\frac{" ++ A ++ js "}{" ++ B ++ js "}")
  = Ok (js "(" ++ A ++ js ")/(" ++ B ++ js ")").
Proof.
  intros HA HB SA [FA1 FA2] SB [FB1 FB2].
  assert (NT : ~ In 92%N (97 :: 99 :: 123 :: A ++ js "}{" ++ B ++ js "}")%N).
  { cbn [In]. intros [E|[E|[E|Hin]]]; try discriminate.
    apply in_app_or in Hin. destruct Hin as [Hin|Hin]; [exact (SA Hin)|].
    apply in_app_or in Hin. destruct Hin as [Hin|Hin];
      [cbn in Hin; intuition discriminate|].
    apply in_app_or in Hin. destruct Hin as [Hin|Hin]; [exact (SB Hin)|].
    cbn in Hin. intuition discriminate. }
  rewrite toReadable_steps
    by (apply (substitute_all_frac symbolMap symbolMap_skips_frac _ NT)).
  rewrite (replace_frac A B HA HB FA2 FB2).
  assert (NR : ~ In 92%N (js "(" ++ A ++ js ")/(" ++ B ++ js ")")).
  { intros Hin. apply in_app_or in Hin. destruct Hin as [Hin|Hin];
      [cbn in Hin; intuition discriminate|].
    apply in_app_or in Hin. destruct Hin as [Hin|Hin]; [exact (SA Hin)|].
    apply in_app_or in Hin. destruct Hin as [Hin|Hin];
      [cbn in Hin; intuition discriminate|].
    apply in_app_or in Hin. destruct Hin as [Hin|Hin]; [exact (SB Hin)|].
    cbn in Hin. intuition discriminate. }
  assert (FR : brace_free (js "(" ++ A ++ js ")/(" ++ B ++ js ")")).
  { split; intros Hin;
      (apply in_app_or in Hin; destruct Hin as [Hin|Hin];
       [cbn in Hin; intuition discriminate|]);
      (apply in_app_or in Hin; destruct Hin as [Hin|Hin]; [tauto|]);
      (apply in_app_or in Hin; destruct Hin as [Hin|Hin];
       [cbn in Hin; intuition discriminate|]);
      (apply in_app_or in Hin; destruct Hin as [Hin|Hin]; [tauto|]);
      cbn in Hin; intuition discriminate. }
  rewrite (later_stages_plain _ NR FR).
  f_equal. unfold trim.
  change (js "(" ++ A ++ js ")/(" ++ B ++ js ")")
    with (40%N :: A ++ js ")/(" ++ B ++ [41%N]).
  cbn [trimStart]. change (is_space 40%N) with false. cbv iota.
  rewrite !app_comm_cons, !app_assoc.
  apply trimEnd_snoc. reflexivity.
Qed.

Lemma toReadable_fraction_witness :
  toReadable (js "\frac{a+1}{2 b}") = Ok (js "(a+1)/(2 b)").
Proof.
  apply (toReadable_fraction (js "a+1") (js "2 b"));
    try (split; vm_compute; intuition discriminate);
    vm_compute; intuition discriminate.
Defined.

(** ** The arXiv identifier *)

Lemma star_greedy_shape (R : Type) (p : char -> bool) (a : jsstring) :
  forall b n (K : jsstring -> jsstring -> nat -> option R) r,
    star_greedy p b a n K = Some r ->
    exists run rest,
      a = run ++ rest /\ forallb p run = true
      /\ K (rev run ++ b) rest (n + List.length run) = Some r.
Proof.
  induction a as [|c a IH]; intros b n K r H; cbn [star_greedy] in H.
  - exists [], []. cbn. rewrite Nat.add_0_r. auto.
  - destruct (p c) eqn:Hc.
    + destruct (star_greedy p (c :: b) a (S n) K) as [x|] eqn:E.
      * inversion H; subst x. apply IH in E.
        destruct E as (run & rest & Ha & Hp & HK).
        exists (c :: run), rest. cbn [app forallb rev List.length].
        rewrite Hc, Hp, Ha. repeat split.
        rewrite <- app_assoc. cbn [app]. rewrite Nat.add_succ_r. exact HK.
      * exists [], (c :: a). cbn. rewrite Nat.add_0_r. auto.
    + exists [], (c :: a). cbn. rewrite Nat.add_0_r. auto.
Qed.

Lemma plus_shape (R : Type) (ic : bool) (p : char -> bool) (st : mstate)
      (K : mstate -> option R) (r : R) :
  m ic (Plus p) st K = Some r ->
  exists x run rest,
    after st = x :: run ++ rest /\ p x = true /\ forallb p run = true
    /\ K (MState (rev run ++ x :: before st) rest
                 (S (mlen st) + List.length run) (caps st)) = Some r.
Proof.
  cbn [m]. destruct (after st) as [|x a] eqn:Ea; [discriminate|].
  destruct (p x) eqn:Hx; [|discriminate]. intros H.
  apply star_greedy_shape in H. destruct H as (run & rest & Ha & Hp & HK).
  exists x, run, rest. subst a. auto.
Qed.

Lemma plus_takes_run (R : Type) (ic : bool) (p : char -> bool)
      (x : char) (run rest : jsstring) (st : mstate)
      (K : mstate -> option R) (r : R) :
  after st = x :: run ++ rest ->
  p x = true -> forallb p run = true ->
  match rest with [] => True | d :: _ => p d = false end ->
  K (MState (rev run ++ x :: before st) rest
            (S (mlen st) + List.length run) (caps st)) = Some r ->
  m ic (Plus p) st K = Some r.
Proof.
  intros Ha Hx Hp Hr HK. cbn [m]. rewrite Ha, Hx.
  apply star_greedy_takes_run; [exact Hp|exact Hr|exact HK].
Qed.

Lemma starts_with_split (k s : jsstring) :
  starts_with k s = true -> exists rest, s = k ++ rest.
Proof.
  revert s. induction k as [|c k IH]; intros s H.
  - exists s. reflexivity.
  - destruct s as [|y s]; [discriminate|]. cbn [starts_with] in H.
    apply andb_prop in H. destruct H as [H1 H2].
    apply N.eqb_eq in H1. subst y.
    destruct (IH s H2) as [rest ->]. exists rest. reflexivity.
Qed.

Lemma chars_shape (R : Type) (k : jsstring) (st : mstate)
      (K : mstate -> option R) (r : R) :
  m false (seq (map Chr k)) st K = Some r ->
  exists rest,
    after st = k ++ rest
    /\ K (MState (rev k ++ before st) rest (mlen st + List.length k) (caps st))
       = Some r.
Proof.
  intros H. destruct (starts_with k (after st)) eqn:E.
  - destruct (starts_with_split _ _ E) as [rest Ha].
    exists rest. split; [exact Ha|].
    rewrite (m_chars_state R false k st rest K Ha) in H. exact H.
  - rewrite m_chars_fail in H by exact E. discriminate.
Qed.

Lemma includes_middle (pre x post : jsstring) :
  includes (pre ++ x ++ post) x = true.
Proof.
  induction pre as [|c pre IH].
  - cbn [app]. destruct (x ++ post) eqn:E.
    + destruct x; [reflexivity|discriminate].
    + rewrite <- E. cbn [includes].
      assert (S : starts_with x (x ++ post) = true).
      { clear. induction x as [|c x IH]; [reflexivity|].
        cbn [app starts_with]. unfold eqc. rewrite N.eqb_refl. exact IH. }
      destruct (x ++ post); cbn [includes]; rewrite S; reflexivity.
  - cbn [app includes]. rewrite IH. apply orb_true_r.
Qed.

Lemma exec_from_position (ic : bool) (r : regex) (a : jsstring) :
  forall b st, exec_from ic r b a = Some st ->
    exists pre suf, a = pre ++ suf /\ exec_at ic r (rev pre ++ b) suf = Some st.
Proof.
  induction a as [|c a IH]; intros b st H; cbn [exec_from] in H.
  - destruct (exec_at ic r b []) eqn:E; [|discriminate].
    inversion H; subst. exists [], []. auto.
  - destruct (exec_at ic r b (c :: a)) eqn:E.
    + inversion H; subst. exists [], (c :: a). auto.
    + apply IH in H. destruct H as (pre & suf & Ha & Hs).
      exists (c :: pre), suf. cbn [app rev]. rewrite <- app_assoc. cbn [app].
      subst a. auto.
Qed.

Lemma m_grp (R : Type) (ic : bool) (g : nat) (r1 : regex) (st : mstate)
      (K : mstate -> option R) :
  m ic (Grp g r1) st K
  = m ic r1 st (fun st' =>
      K (MState (before st') (after st') (mlen st')
                ((g, firstn (mlen st' - mlen st) (after st)) :: caps st'))).
Proof. reflexivity. Qed.

Lemma digits_of_run (x : char) (run : jsstring) :
  is_digit x = true -> forallb is_digit run = true -> digits (x :: run).
Proof.
  intros Hx Hr. split; [discriminate|]. cbn [forallb]. rewrite Hx, Hr. reflexivity.
Qed.

Lemma firstn_length_app (A : Type) (p q : list A) :
  firstn (List.length p) (p ++ q) = p.
Proof.
  rewrite firstn_app, firstn_all, Nat.sub_diag. cbn [firstn].
  apply app_nil_r.
Qed.

(** What a match of the identifier pattern looks like. *)
Lemma arxiv_exec_shape (b a : jsstring) (st : mstate) :
  exec_at false re_arxiv_id b a = Some st ->
  exists kind d1 d2 rest,
    (kind = js "abs" \/ kind = js "pdf")
    /\ digits d1 /\ digits d2
    /\ a = js "/" ++ kind ++ js "/" ++ d1 ++ js "." ++ d2 ++ rest
    /\ capture 1 (caps st) = d1 ++ js "." ++ d2.
Proof.
  unfold exec_at, re_arxiv_id, seq. cbn [fold_right]. intros H.
  step_cat_in H. unfold lit at 1 in H.
  apply chars_shape in H. destruct H as (r1 & Ha & H). cbn [before after mlen caps] in *.
  step_cat_in H.
  assert (HK : exists kind r2,
             (kind = js "abs" \/ kind = js "pdf") /\ r1 = kind ++ r2
             /\ m false (Cat (lit "/")
                  (Cat (Grp 1 (Cat (Plus is_digit)
                                   (Cat (lit ".") (Cat (Plus is_digit) Eps)))) Eps))
                  (MState (rev kind ++ rev (js "/") ++ b) r2
                          (0 + List.length (js "/") + List.length kind) [])
                  (fun st => Some st) = Some st).
  { cbn [m] in H.
    match type of H with
    | match ?t with _ => _ end = _ => destruct t as [x|] eqn:E
    end.
    - inversion H; subst x. unfold lit at 1 in E.
      apply chars_shape in E. destruct E as (r2 & Hr & E).
      cbn [before after mlen caps] in *. exists (js "abs"), r2. auto.
    - unfold lit at 1 in H.
      apply chars_shape in H. destruct H as (r2 & Hr & H).
      cbn [before after mlen caps] in *. exists (js "pdf"), r2. auto. }
  clear H. destruct HK as (kind & r2 & Hk & Hr1 & H).
  step_cat_in H. unfold lit at 1 in H.
  apply chars_shape in H. destruct H as (r3 & Hr2 & H).
  cbn [before after mlen caps] in *.
  step_cat_in H. rewrite m_grp in H. step_cat_in H.
  apply plus_shape in H. destruct H as (x1 & run1 & r4 & Hr3 & Hx1 & Hp1 & H).
  cbn [before after mlen caps] in *.
  step_cat_in H. unfold lit at 1 in H.
  apply chars_shape in H. destruct H as (r5 & Hr4 & H).
  cbn [before after mlen caps] in *.
  step_cat_in H.
  apply plus_shape in H. destruct H as (x2 & run2 & r6 & Hr5 & Hx2 & Hp2 & H).
  cbn [before after mlen caps m] in *.
  inversion H; subst st. clear H.
  exists kind, (x1 :: run1), (x2 :: run2), r6.
  split; [exact Hk|].
  split; [apply digits_of_run; assumption|].
  split; [apply digits_of_run; assumption|].
  subst a r1 r2 r3 r4 r5. split.
  - rewrite <- ?app_assoc. reflexivity.
  - unfold capture. cbn [find fst snd Nat.eqb caps].
    match goal with
    | |- firstn ?n _ = _ =>
        replace n with (List.length ((x1 :: run1) ++ js "." ++ x2 :: run2))
    end.
    + match goal with
      | |- firstn _ ?t = ?P => replace t with (P ++ r6)
      end.
      * apply firstn_length_app.
      * change (js ".") with [46%N]. cbn [app].
        rewrite <- !app_assoc. reflexivity.
    + rewrite !length_app. cbn [List.length].
      change (List.length (js ".")) with 1.
      change (List.length (js "/")) with 1.
      assert (L : List.length kind = 3) by (destruct Hk; subst kind; reflexivity).
      rewrite L. cbn [Nat.add]. lia.
Qed.

Lemma digit_run_split (s : jsstring) :
  exists run rest,
    s = run ++ rest /\ forallb is_digit run = true
    /\ match rest with [] => True | d :: _ => is_digit d = false end.
Proof.
  induction s as [|c s (run & rest & Hs & Hr & Hb)].
  - exists [], []. repeat split.
  - destruct (is_digit c) eqn:Hc.
    + exists (c :: run), rest. cbn [app forallb]. rewrite Hc, Hr, Hs.
      repeat split. exact Hb.
    + exists [], (c :: s). cbn [app forallb]. repeat split. exact Hc.
Qed.

Lemma arxiv_tail_exec (st : mstate) (x1 x2 : char) (run1 run2 rest : jsstring) :
  after st = js "/" ++ (x1 :: run1) ++ js "." ++ (x2 :: run2) ++ rest ->
  is_digit x1 = true -> forallb is_digit run1 = true ->
  is_digit x2 = true -> forallb is_digit run2 = true ->
  match rest with [] => True | d :: _ => is_digit d = false end ->
  exists st',
    m false (Cat (lit "/")
              (Cat (Grp 1 (Cat (Plus is_digit)
                               (Cat (lit ".") (Cat (Plus is_digit) Eps)))) Eps))
      st (fun s => Some s) = Some st'
    /\ capture 1 (caps st') = (x1 :: run1) ++ js "." ++ (x2 :: run2).
Proof.
  intros Ha Hx1 Hp1 Hx2 Hp2 Hb. eexists. split.
  - step_cat. unfold lit at 1.
    erewrite m_chars_state by exact Ha.
    step_cat. rewrite m_grp. step_cat.
    eapply plus_takes_run; [reflexivity|exact Hx1|exact Hp1|reflexivity|].
    cbn [before mlen caps after]. step_cat. unfold lit at 1.
    erewrite m_chars_state by reflexivity.
    cbn [before mlen caps after]. step_cat.
    eapply plus_takes_run; [reflexivity|exact Hx2|exact Hp2|exact Hb|].
    cbn [before mlen caps after]. cbn [m]. reflexivity.
  - unfold capture. cbn [find fst snd Nat.eqb caps mlen after before].
    match goal with
    | |- firstn ?n ?t = ?P =>
        replace n with (List.length P);
        [replace t with (P ++ rest)|]
    end.
    + apply firstn_length_app.
    + rewrite <- !app_assoc. reflexivity.
    + rewrite !length_app. cbn [List.length].
      change (List.length (js ".")) with 1.
      change (List.length (js "/")) with 1. lia.
Qed.

Lemma arxiv_exec_at (b kind : jsstring) (x1 x2 : char)
      (run1 run2 rest : jsstring) :
  kind = js "abs" \/ kind = js "pdf" ->
  is_digit x1 = true -> forallb is_digit run1 = true ->
  is_digit x2 = true -> forallb is_digit run2 = true ->
  match rest with [] => True | d :: _ => is_digit d = false end ->
  exists st,
    exec_at false re_arxiv_id b
      (js "/" ++ kind ++ js "/" ++ (x1 :: run1) ++ js "." ++ (x2 :: run2) ++ rest)
    = Some st
    /\ capture 1 (caps st) = (x1 :: run1) ++ js "." ++ (x2 :: run2).
Proof.
  intros Hk Hx1 Hp1 Hx2 Hp2 Hb.
  destruct (arxiv_tail_exec
              (MState (rev kind ++ rev (js "/") ++ b)
                      (js "/" ++ (x1 :: run1) ++ js "." ++ (x2 :: run2) ++ rest)
                      (0 + List.length (js "/") + List.length kind) [])
              x1 x2 run1 run2 rest eq_refl Hx1 Hp1 Hx2 Hp2 Hb)
    as (st' & E & Hc).
  exists st'. split; [|exact Hc].
  unfold exec_at, re_arxiv_id, seq. cbn [fold_right].
  step_cat. unfold lit at 1. erewrite m_chars_state by reflexivity.
  cbn [before mlen caps after]. step_cat. cbn [m].
  destruct Hk as [-> | ->].
  - unfold lit at 1. erewrite m_chars_state by reflexivity.
    match goal with
    | |- match ?t with _ => _ end = _ =>
        replace t with (Some st') by (symmetry; exact E)
    end.
    reflexivity.
  - unfold lit at 1. rewrite m_chars_fail by reflexivity.
    unfold lit at 1. erewrite m_chars_state by reflexivity.
    cbn [before mlen caps after]. exact E.
Qed.

Lemma exec_from_finds (ic : bool) (r : regex) (pre suf : jsstring) :
  forall b st, exec_at ic r (rev pre ++ b) suf = Some st ->
    exists st', exec_from ic r b (pre ++ suf) = Some st'.
Proof.
  induction pre as [|c pre IH]; intros b st H.
  - cbn [rev app] in *. exists st.
    destruct suf; cbn [exec_from]; rewrite H; reflexivity.
  - cbn [app exec_from].
    destruct (exec_at ic r b (c :: pre ++ suf)) as [x|]; [exists x; reflexivity|].
    apply (IH (c :: b) st). cbn [rev] in H. rewrite <- app_assoc in H. exact H.
Qed.

Lemma exec_from_head (ic : bool) (r : regex) (b a : jsstring) (st : mstate) :
  exec_at ic r b a = Some st -> exec_from ic r b a = Some st.
Proof. intros H. destruct a; cbn [exec_from]; rewrite H; reflexivity. Qed.

Lemma extractArxivId_shape (pathname id : jsstring) :
  extractArxivId pathname = Some id ->
  exists pre kind d1 d2 rest,
    (kind = js "abs" \/ kind = js "pdf")
    /\ digits d1 /\ digits d2
    /\ pathname = pre ++ js "/" ++ kind ++ js "/" ++ d1 ++ js "." ++ d2 ++ rest
    /\ id = d1 ++ js "." ++ d2.
Proof.
  unfold extractArxivId. intros H.
  destruct (exec_from false re_arxiv_id [] pathname) as [st|] eqn:E;
    [|discriminate].
  inversion H; subst id. clear H.
  apply exec_from_position in E. destruct E as (pre & suf & Hp & E).
  apply arxiv_exec_shape in E.
  destruct E as (kind & d1 & d2 & rest & Hk & H1 & H2 & Hs & Hc).
  exists pre, kind, d1, d2, rest. subst pathname suf. auto.
Qed.

(** X20: when extractArxivId finds an identifier.  The result is
    non-null exactly when the path holds, somewhere, a slash, abs or
    pdf, a slash, a digit, perhaps more digits, a dot and a digit. *)
Theorem extractArxivId_found_iff (pathname : jsstring) :
  extractArxivId pathname <> None
  <-> exists pre kind d1 d2 rest,
        (kind = js "abs" \/ kind = js "pdf")
        /\ digits d1 /\ digits d2
        /\ pathname
           = pre ++ js "/" ++ kind ++ js "/" ++ d1 ++ js "." ++ d2 ++ rest.
Proof.
  split.
  - intros H. destruct (extractArxivId pathname) as [id|] eqn:E;
      [|contradiction].
    apply extractArxivId_shape in E.
    destruct E as (pre & kind & d1 & d2 & rest & Hk & H1 & H2 & Hp & _).
    exists pre, kind, d1, d2, rest. auto.
  - intros (pre & kind & d1 & d2 & rest & Hk & (N1 & H1) & (N2 & H2) & Hp).
    destruct d1 as [|x1 run1]; [contradiction|].
    destruct d2 as [|x2 run2]; [contradiction|].
    cbn [forallb] in H1, H2.
    apply andb_prop in H1. destruct H1 as [Hx1 Hp1].
    apply andb_prop in H2. destruct H2 as [Hx2 Hp2].
    destruct (digit_run_split rest) as (more & rest' & Hr & Hm & Hb).
    assert (Hp2' : forallb is_digit (run2 ++ more) = true).
    { rewrite forallb_app, Hp2, Hm. reflexivity. }
    destruct (arxiv_exec_at (rev pre ++ []) kind x1 x2 run1 (run2 ++ more) rest'
                            Hk Hx1 Hp1 Hx2 Hp2' Hb) as (st & E & _).
    assert (Hs : pathname
                 = pre ++ js "/" ++ kind ++ js "/" ++ (x1 :: run1) ++ js "."
                       ++ (x2 :: run2 ++ more) ++ rest').
    { rewrite Hp, Hr. cbn [app]. rewrite <- !app_assoc. reflexivity. }
    apply exec_from_finds in E. destruct E as (st' & E).
    unfold extractArxivId. rewrite Hs, E. discriminate.
Qed.

(** X21: the form of the identifier.  A non-null result is a run of
    digits, a dot and a run of digits, and the path holds it right
    after /abs/ or /pdf/. *)
Theorem extractArxivId_format (pathname id : jsstring) :
  extractArxivId pathname = Some id ->
  exists kind d1 d2,
    (kind = js "abs" \/ kind = js "pdf")
    /\ digits d1 /\ digits d2
    /\ id = d1 ++ js "." ++ d2
    /\ includes pathname (js "/" ++ kind ++ js "/" ++ id) = true.
Proof.
  intros H. apply extractArxivId_shape in H.
  destruct H as (pre & kind & d1 & d2 & rest & Hk & H1 & H2 & Hp & Hid).
  exists kind, d1, d2. repeat split; try assumption; try apply H1; try apply H2.
  subst id pathname.
  replace (pre ++ js "/" ++ kind ++ js "/" ++ d1 ++ js "." ++ d2 ++ rest)
    with (pre ++ (js "/" ++ kind ++ js "/" ++ d1 ++ js "." ++ d2) ++ rest).
  - apply includes_middle.
  - rewrite <- !app_assoc. reflexivity.
Qed.

Lemma extractArxivId_format_witness :
  exists kind d1 d2,
    (kind = js "abs" \/ kind = js "pdf")
    /\ digits d1 /\ digits d2
    /\ js "2301.12345" = d1 ++ js "." ++ d2
    /\ includes (js "/pdf/2301.12345v2.pdf")
                (js "/" ++ kind ++ js "/" ++ js "2301.12345") = true.
Proof.
  apply (extractArxivId_format (js "/pdf/2301.12345v2.pdf") (js "2301.12345")).
  vm_compute. reflexivity.
Defined.

(** X22: a path that opens with /abs/ or /pdf/ and an identifier gives
    that identifier back, whatever follows it, as long as what follows
    does not go on with a digit: a version suffix or a file extension
    is dropped. *)
Theorem extractArxivId_leading (kind d1 d2 rest : jsstring) :
  kind = js "abs" \/ kind = js "pdf" ->
  digits d1 -> digits d2 ->
  match rest with [] => True | c :: _ => is_digit c = false end ->
  extractArxivId (js "/" ++ kind ++ js "/" ++ d1 ++ js "." ++ d2 ++ rest)
  = Some (d1 ++ js "." ++ d2).
Proof.
  intros Hk (N1 & H1) (N2 & H2) Hb.
  destruct d1 as [|x1 run1]; [contradiction|].
  destruct d2 as [|x2 run2]; [contradiction|].
  cbn [forallb] in H1, H2.
  apply andb_prop in H1. destruct H1 as [Hx1 Hp1].
  apply andb_prop in H2. destruct H2 as [Hx2 Hp2].
  destruct (arxiv_exec_at [] kind x1 x2 run1 run2 rest Hk Hx1 Hp1 Hx2 Hp2 Hb)
    as (st & E & Hc).
  apply exec_from_head in E.
  unfold extractArxivId. rewrite E, Hc. reflexivity.
Qed.

Lemma extractArxivId_leading_witness :
  extractArxivId (js "/abs/2301.12345v2") = Some (js "2301.12345").
Proof.
  apply (extractArxivId_leading (js "abs") (js "2301") (js "12345") (js "v2")).
  - left. reflexivity.
  - split; [discriminate|reflexivity].
  - split; [discriminate|reflexivity].
  - reflexivity.
Defined.

Lemma includes_split (s k : jsstring) :
  includes s k = true -> exists pre post, s = pre ++ k ++ post.
Proof.
  induction s as [|c s IH]; intros H.
  - cbn [includes] in H. rewrite orb_false_r in H.
    apply starts_with_split in H. destruct H as [rest H].
    exists [], rest. exact H.
  - rewrite includes_cons in H. apply orb_prop in H. destruct H as [H|H].
    + apply starts_with_split in H. destruct H as [rest H].
      exists [], rest. exact H.
    + destruct (IH H) as (pre & post & ->). exists (c :: pre), post. reflexivity.
Qed.

Lemma includes_inside (a s b k : jsstring) :
  includes s k = true -> includes (a ++ s ++ b) k = true.
Proof.
  intros H. apply includes_split in H. destruct H as (pre & post & ->).
  replace (a ++ (pre ++ k ++ post) ++ b) with ((a ++ pre) ++ k ++ (post ++ b)).
  - apply includes_middle.
  - rewrite <- !app_assoc. reflexivity.
Qed.

(** X23: detection agrees with the identifier.  For a page address
    made of a host part that holds arxiv.org, the path and whatever
    follows the path, detect is true whenever extractArxivId finds an
    identifier in the path. *)
Theorem detected_when_id_found (host pathname tail : jsstring) :
  includes host (js "arxiv.org") = true ->
  extractArxivId pathname <> None ->
  arxiv_detect (host ++ pathname ++ tail) = true.
Proof.
  intros Hh Hid. unfold arxiv_detect.
  apply andb_true_intro. split.
  - apply (includes_inside [] host (pathname ++ tail) _ Hh).
  - destruct (extractArxivId pathname) as [id|] eqn:E; [|contradiction].
    apply extractArxivId_shape in E.
    destruct E as (pre & kind & d1 & d2 & rest & Hk & _ & _ & Hp & _).
    assert (Hin : includes pathname (js "/" ++ kind ++ js "/") = true).
    { rewrite Hp.
      replace (pre ++ js "/" ++ kind ++ js "/" ++ d1 ++ js "." ++ d2 ++ rest)
        with (pre ++ (js "/" ++ kind ++ js "/") ++ (d1 ++ js "." ++ d2 ++ rest)).
      - apply includes_middle.
      - rewrite <- !app_assoc. reflexivity. }
    apply orb_true_iff.
    destruct Hk as [-> | ->]; [left|right];
      apply (includes_inside host pathname tail _ Hin).
Qed.

Lemma detected_when_id_found_witness :
  arxiv_detect (js "https://arxiv.org" ++ js "/abs/2301.12345v2" ++ js "?context=cs")
  = true.
Proof.
  apply detected_when_id_found.
  - vm_compute. reflexivity.
  - vm_compute. discriminate.
Defined.
